(** * The TwelveData ETL pipeline (main.py): model and properties

    The script fetches bar and indicator documents over HTTP, normalises
    their records and loads them into two PostgreSQL tables.  This file
    embeds its functions as Rocq functions over

    - Python values as the JSON decoder produces them (dictionaries keep
      their insertion order, so they are association lists),
    - the builtins the script calls ([int], [float],
      [datetime.strptime]),
    - a world holding the console, the clock, the HTTP peer and the
      database server with its client connections and cursors,

    and proves the properties stated for them. *)

From Stdlib Require Import ZArith List String Ascii Bool Lia SpecFloat.
From stdpp Require Import base list.
Import ListNotations.
Set Warnings "-register-all".
Set Default Proof Using "Type".
Local Open Scope string_scope.
Local Open Scope list_scope.
Local Open Scope Z_scope.

(** ** Python values and exceptions *)

Module Py.

(** A [datetime.datetime] without time zone, second precision. *)
Record datetime := mkDatetime {
  year : Z; month : Z; day : Z; hour : Z; minute : Z; second : Z }.

(** The values that flow through the script: what [r.json()] yields
    (None, booleans, integers, binary64 floats, strings, lists and
    dictionaries with string keys) and what the normalisers put in their
    place (datetimes).  A string is a sequence of code points below 256. *)
Inductive obj :=
| VNone
| VBool (b : bool)
| VInt (z : Z)
| VFloat (f : spec_float)
| VStr (s : string)
| VDatetime (t : datetime)
| VList (l : list obj)
| VDict (d : list (string * obj)).

Definition dict := list (string * obj).

(** Where a builtin raised from; it stands for the message of the Python
    exception. *)
Inductive origin :=
| AtSubscript | AtItemAssign | AtIter | AtKeys
| AtStrptime | AtFloat | AtInt | AtMogrify.

Inductive exn :=
| KeyError (k : string)
| IndexError
| TypeError (o : origin)
| ValueError (o : origin)
| OverflowError (o : origin)
| AttributeError (o : origin)
| ConnectionError
| JSONDecodeError
| OperationalError
| InterfaceError
| UndefinedTable (t : string)
| DuplicateTable (t : string)
| SyntaxError
| NotNullViolation (c : string)
| UniqueViolation (t : string)
| DataError
| ProgrammingError
| InFailedSqlTransaction.

Inductive res (A : Type) :=
| Ok (a : A)
| Raise (e : exn).
Arguments Ok {A} a.
Arguments Raise {A} e.

Definition bind {A B} (r : res A) (k : A -> res B) : res B :=
  match r with Ok a => k a | Raise e => Raise e end.

(** *** Dictionaries: insertion-ordered, one entry per key *)

Fixpoint dict_get (k : string) (d : dict) : option obj :=
  match d with
  | [] => None
  | (k', v) :: d' => if String.eqb k k' then Some v else dict_get k d'
  end.

(** [d[k] = v]: an existing key keeps its position, a new key goes last. *)
Fixpoint dict_set (k : string) (v : obj) (d : dict) : dict :=
  match d with
  | [] => [(k, v)]
  | (k', v') :: d' =>
      if String.eqb k k' then (k, v) :: d' else (k', v') :: dict_set k v d'
  end.

(** [list(d.keys())] *)
Definition keys (d : dict) : list string := map fst d.

(** [v[k]] for a string key [k]: only a dictionary can be subscripted by a
    string. *)
Definition subscript (v : obj) (k : string) : res obj :=
  match v with
  | VDict d =>
      match dict_get k d with
      | Some x => Ok x
      | None => Raise (KeyError k)
      end
  | _ => Raise (TypeError AtSubscript)
  end.

(** [l[i]] on a Python list, for a non-negative index. *)
Definition list_index {A} (l : list A) (i : nat) : res A :=
  match nth_error l i with
  | Some x => Ok x
  | None => Raise IndexError
  end.

Fixpoint chars (s : string) : list ascii :=
  match s with
  | EmptyString => []
  | String c s' => c :: chars s'
  end.

(** [for x in v]: the elements of a list, the keys of a dictionary, the
    characters of a string; nothing else that reaches the script is
    iterable. *)
Definition iterate (v : obj) : res (list obj) :=
  match v with
  | VList l => Ok l
  | VDict d => Ok (map VStr (keys d))
  | VStr s => Ok (map (fun c => VStr (String c EmptyString)) (chars s))
  | _ => Raise (TypeError AtIter)
  end.

(** *** Characters *)

Definition code (c : ascii) : Z := Z.of_N (N_of_ascii c).

Definition in_range (lo hi c : ascii) : bool :=
  (code lo <=? code c) && (code c <=? code hi).

Definition is_char (x c : ascii) : bool := Ascii.eqb x c.

Definition is_digit : ascii -> bool := in_range "0" "9".

Definition digit_val (c : ascii) : Z := code c - 48.

(** White space as [int] and [float] see it: the C locale's six characters
    below 128, and the two Unicode spaces between 128 and 255 (NEL and the
    no-break space), which the conversion maps to a blank first. *)
Definition num_space (c : ascii) : bool :=
  let n := code c in
  ((9 <=? n) && (n <=? 13)) || (n =? 32) || (n =? 133) || (n =? 160).

(** White space as the regular expression class [\s] sees it on [str]. *)
Definition re_space (c : ascii) : bool :=
  let n := code c in
  ((9 <=? n) && (n <=? 13)) || ((28 <=? n) && (n <=? 32))
  || (n =? 133) || (n =? 160).

Fixpoint drop_while (p : ascii -> bool) (s : list ascii) : list ascii :=
  match s with
  | c :: s' => if p c then drop_while p s' else s
  | [] => []
  end.

Definition strip (s : list ascii) : list ascii :=
  rev (drop_while num_space (rev (drop_while num_space s))).

(** *** Numeric literals *)

(** A run of digits in which single underscores may separate digits:
    [digit (["_"] digit)*].  Returns the digits read and what follows. *)
Fixpoint more_digits (s : list ascii) : list Z * list ascii :=
  match s with
  | c :: s' =>
      if is_digit c then
        let '(ds, r) := more_digits s' in (digit_val c :: ds, r)
      else if is_char "_" c then
        match s' with
        | c' :: s'' =>
            if is_digit c' then
              let '(ds, r) := more_digits s'' in (digit_val c' :: ds, r)
            else ([], s)
        | [] => ([], s)
        end
      else ([], s)
  | [] => ([], [])
  end.

Definition digits (s : list ascii) : option (list Z * list ascii) :=
  match s with
  | c :: s' =>
      if is_digit c then
        let '(ds, r) := more_digits s' in Some (digit_val c :: ds, r)
      else None
  | [] => None
  end.

Definition number_of (ds : list Z) : Z :=
  fold_left (fun acc d => 10 * acc + d) ds 0.

(** An optional sign; [true] is minus. *)
Definition sign (s : list ascii) : bool * list ascii :=
  match s with
  | c :: s' =>
      if is_char "-" c then (true, s')
      else if is_char "+" c then (false, s')
      else (false, s)
  | [] => (false, [])
  end.

Definition signed (neg : bool) (z : Z) : Z := if neg then - z else z.

(** [int(s)] for a string, base 10. *)
Definition int_of_string (s : string) : res Z :=
  let '(neg, r) := sign (strip (chars s)) in
  match digits r with
  | Some (ds, []) => Ok (signed neg (number_of ds))
  | _ => Raise (ValueError AtInt)
  end.

(** Binary64. *)
Definition prec : Z := 53.
Definition emax : Z := 1024.

(** The float nearest to [m * 10^e] (ties to even), for [m > 0]. *)
Definition round_decimal (neg : bool) (m : positive) (e : Z) : spec_float :=
  match e with
  | Zneg p =>
      let '(q, e2, l) :=
        SFdiv_core_binary prec emax (Zpos m) 0 (Zpos (10 ^ p)) 0 in
      binary_round_aux prec emax neg q e2 l
  | _ => binary_round prec emax neg (m * Z.to_pos (10 ^ e))%positive 0
  end.

Definition float_of_decimal (neg : bool) (m e : Z) : spec_float :=
  match m with
  | Zpos p => round_decimal neg p e
  | _ => S754_zero neg
  end.

Definition lower (c : ascii) : ascii :=
  if in_range "A" "Z" c then ascii_of_N (N_of_ascii c + 32) else c.

Fixpoint same_chars (a b : list ascii) : bool :=
  match a, b with
  | [], [] => true
  | x :: a', y :: b' => Ascii.eqb x y && same_chars a' b'
  | _, _ => false
  end.

Definition is_word (w : string) (s : list ascii) : bool :=
  same_chars (map lower s) (chars w).

(** The optional exponent part, which must end the literal. *)
Definition exponent (s : list ascii) : option Z :=
  match s with
  | [] => Some 0
  | c :: s' =>
      if is_char "e" (lower c) then
        let '(neg, r) := sign s' in
        match digits r with
        | Some (ds, []) => Some (signed neg (number_of ds))
        | _ => None
        end
      else None
  end.

(** The fraction digits after the point ([need]: at least one is
    required), then the exponent. *)
Definition fraction (need : bool) (s : list ascii)
  : option (list Z * Z) :=
  match digits s with
  | Some (fs, r) =>
      match exponent r with Some e => Some (fs, e) | None => None end
  | None =>
      if need then None
      else match exponent s with Some e => Some ([], e) | None => None end
  end.

(** [digits ["." [digits]] [exp]] or ["." digits [exp]]: the digits of the
    mantissa and the power of ten. *)
Definition decimal (s : list ascii) : option (list Z * Z) :=
  match digits s with
  | Some (ds, r) =>
      match r with
      | c :: r' =>
          if is_char "." c then
            match fraction false r' with
            | Some (fs, e) => Some (ds ++ fs, e - Z.of_nat (length fs))
            | None => None
            end
          else match exponent r with
               | Some e => Some (ds, e)
               | None => None
               end
      | [] => Some (ds, 0)
      end
  | None =>
      match s with
      | c :: r' =>
          if is_char "." c then
            match fraction true r' with
            | Some (fs, e) => Some (fs, e - Z.of_nat (length fs))
            | None => None
            end
          else None
      | [] => None
      end
  end.

(** [float(s)] for a string. *)
Definition float_of_string (s : string) : res spec_float :=
  let '(neg, r) := sign (strip (chars s)) in
  if is_word "inf" r || is_word "infinity" r then Ok (S754_infinity neg)
  else if is_word "nan" r then Ok S754_nan
  else match decimal r with
       | Some (ds, e) => Ok (float_of_decimal neg (number_of ds) e)
       | None => Raise (ValueError AtFloat)
       end.

(** [int(f)] for a float: truncation toward zero. *)
Definition int_of_float (f : spec_float) : res Z :=
  match f with
  | S754_zero _ => Ok 0
  | S754_infinity _ => Raise (OverflowError AtInt)
  | S754_nan => Raise (ValueError AtInt)
  | S754_finite neg m e =>
      Ok (signed neg (match e with
                      | Zneg p => Z.shiftr (Zpos m) (Zpos p)
                      | _ => Z.shiftl (Zpos m) e
                      end))
  end.

(** [float(z)] for an integer: nearest float, or OverflowError. *)
Definition float_of_int (z : Z) : res spec_float :=
  match binary_normalize prec emax z 0 false with
  | S754_infinity _ => Raise (OverflowError AtFloat)
  | f => Ok f
  end.

(** The builtin [float]. *)
Definition float (v : obj) : res obj :=
  match v with
  | VStr s => bind (float_of_string s) (fun f => Ok (VFloat f))
  | VFloat f => Ok (VFloat f)
  | VInt z => bind (float_of_int z) (fun f => Ok (VFloat f))
  | VBool b => bind (float_of_int (if b then 1 else 0))
                 (fun f => Ok (VFloat f))
  | _ => Raise (TypeError AtFloat)
  end.

(** The builtin [int]. *)
Definition int (v : obj) : res obj :=
  match v with
  | VStr s => bind (int_of_string s) (fun z => Ok (VInt z))
  | VInt z => Ok (VInt z)
  | VBool b => Ok (VInt (if b then 1 else 0))
  | VFloat f => bind (int_of_float f) (fun z => Ok (VInt z))
  | _ => Raise (TypeError AtInt)
  end.

(** *** [datetime.strptime(s, "%Y-%m-%d %H:%M:%S")]

    The library turns the format into the regular expression
    [(\d\d\d\d)-(1[0-2]|0[1-9]|[1-9])-(3[0-1]|[1-2]\d|0[1-9]|[1-9]| [1-9])]
    [\s+(2[0-3]|[0-1]\d|\d):([0-5]\d|\d):(6[0-1]|[0-5]\d|\d)],
    matches it at the start of the string, requires the match to cover the
    whole string, and builds the datetime.  A matcher returns its possible
    matches in the order the backtracking engine tries them. *)

Definition matcher (A : Type) := list ascii -> list (A * list ascii).

Definition one (p : ascii -> bool) : matcher Z := fun s =>
  match s with
  | c :: r => if p c then [(digit_val c, r)] else []
  | [] => []
  end.

Definition two (p1 p2 : ascii -> bool) : matcher Z := fun s =>
  match s with
  | c1 :: c2 :: r =>
      if p1 c1 && p2 c2 then [(10 * digit_val c1 + digit_val c2, r)] else []
  | _ => []
  end.

Definition alt {A} (a b : matcher A) : matcher A := fun s => a s ++ b s.

Definition lit (x : ascii) : matcher unit := fun s =>
  match s with
  | c :: r => if is_char x c then [(tt, r)] else []
  | [] => []
  end.

Definition seq {A B} (a : matcher A) (k : A -> matcher B) : matcher B :=
  fun s => flat_map (fun '(x, r) => k x r) (a s).

(** [\s+], greedy: the longest run first. *)
Fixpoint spaces (s : list ascii) : list (unit * list ascii) :=
  match s with
  | c :: r => if re_space c then spaces r ++ [(tt, r)] else []
  | [] => []
  end.

Definition re_Y : matcher Z :=
  seq (two is_digit is_digit) (fun hi =>
  seq (two is_digit is_digit) (fun lo s => [(100 * hi + lo, s)])).

Definition re_m : matcher Z :=
  alt (two (is_char "1") (in_range "0" "2"))
 (alt (two (is_char "0") (in_range "1" "9"))
      (one (in_range "1" "9"))).

Definition re_d : matcher Z :=
  alt (two (is_char "3") (in_range "0" "1"))
 (alt (two (in_range "1" "2") is_digit)
 (alt (two (is_char "0") (in_range "1" "9"))
 (alt (one (in_range "1" "9"))
      (seq (lit " ") (fun _ => one (in_range "1" "9")))))).

Definition re_H : matcher Z :=
  alt (two (is_char "2") (in_range "0" "3"))
 (alt (two (in_range "0" "1") is_digit)
      (one is_digit)).

Definition re_M : matcher Z :=
  alt (two (in_range "0" "5") is_digit) (one is_digit).

Definition re_S : matcher Z :=
  alt (two (is_char "6") (in_range "0" "1"))
 (alt (two (in_range "0" "5") is_digit)
      (one is_digit)).

Definition format_regex : matcher datetime :=
  seq re_Y (fun Y => seq (lit "-") (fun _ =>
  seq re_m (fun m => seq (lit "-") (fun _ =>
  seq re_d (fun d => seq spaces (fun _ =>
  seq re_H (fun H => seq (lit ":") (fun _ =>
  seq re_M (fun M => seq (lit ":") (fun _ =>
  seq re_S (fun S s => [(mkDatetime Y m d H M S, s)]))))))))))).

Definition is_leap (y : Z) : bool :=
  (y mod 4 =? 0) && (negb (y mod 100 =? 0) || (y mod 400 =? 0)).

Definition days_in_month (y m : Z) : Z :=
  if m =? 2 then (if is_leap y then 29 else 28)
  else if (m =? 4) || (m =? 6) || (m =? 9) || (m =? 11) then 30
  else 31.

(** The checks of the [datetime] constructor that the expression leaves
    open: year 0, the length of the month, the leap seconds 60 and 61. *)
Definition valid_datetime (t : datetime) : bool :=
  (1 <=? year t) && (day t <=? days_in_month (year t) (month t))
  && (second t <=? 59).

Definition strptime_string (s : string) : res datetime :=
  match format_regex (chars s) with
  | (t, []) :: _ =>
      if valid_datetime t then Ok t else Raise (ValueError AtStrptime)
  | _ => Raise (ValueError AtStrptime)
  end.

(** [datetime.strptime(v, "%Y-%m-%d %H:%M:%S")] *)
Definition strptime (v : obj) : res obj :=
  match v with
  | VStr s => bind (strptime_string s) (fun t => Ok (VDatetime t))
  | _ => Raise (TypeError AtStrptime)
  end.

End Py.

Import Py.

(** ** The database server

    A catalog of tables.  Every table lives in a schema; a session creates
    and writes tables of its current schema, while
    [information_schema.tables] lists those of all schemas. *)

Module Db.

Inductive coltype :=
| Varchar (n : Z)
| Timestamp
| Decimal (p s : Z)
| Bigint.

Record column := mkColumn {
  cname : string; ctype : coltype; not_null : bool }.

Record table := mkTable {
  tschema : string;
  tname : string;
  columns : list column;
  pkey : list string;
  rows : list (list obj) }.

Definition database := list table.

(** The statements the script sends. *)
Inductive stmt :=
| SelectTableExists (name : string)
| CreateTable (name : string) (cols : list column) (pk : list string)
| InsertValues (name : string) (cells : list obj)
| Unparsable.

Definition coltype_eqb (a b : coltype) : bool :=
  match a, b with
  | Varchar n, Varchar m => n =? m
  | Timestamp, Timestamp => true
  | Decimal p s, Decimal p' s' => (p =? p') && (s =? s')
  | Bigint, Bigint => true
  | _, _ => false
  end.

Definition float_eqb (a b : spec_float) : bool :=
  match a, b with
  | S754_zero x, S754_zero y => Bool.eqb x y
  | S754_infinity x, S754_infinity y => Bool.eqb x y
  | S754_nan, S754_nan => true
  | S754_finite x m e, S754_finite y m' e' =>
      Bool.eqb x y && Pos.eqb m m' && (e =? e')
  | _, _ => false
  end.

Definition datetime_eqb (a b : datetime) : bool :=
  (year a =? year b) && (month a =? month b) && (day a =? day b)
  && (hour a =? hour b) && (minute a =? minute b) && (second a =? second b).

Fixpoint obj_eqb (a b : obj) : bool :=
  match a, b with
  | VNone, VNone => true
  | VBool x, VBool y => Bool.eqb x y
  | VInt x, VInt y => x =? y
  | VFloat x, VFloat y => float_eqb x y
  | VStr x, VStr y => String.eqb x y
  | VDatetime x, VDatetime y => datetime_eqb x y
  | VList x, VList y =>
      (fix go (x y : list obj) : bool :=
         match x, y with
         | [], [] => true
         | u :: x', v :: y' => obj_eqb u v && go x' y'
         | _, _ => false
         end) x y
  | VDict x, VDict y =>
      (fix go (x y : list (string * obj)) : bool :=
         match x, y with
         | [], [] => true
         | (k, u) :: x', (k', v) :: y' =>
             String.eqb k k' && obj_eqb u v && go x' y'
         | _, _ => false
         end) x y
  | _, _ => false
  end.

Fixpoint cells_eqb (a b : list obj) : bool :=
  match a, b with
  | [], [] => true
  | u :: a', v :: b' => obj_eqb u v && cells_eqb a' b'
  | _, _ => false
  end.

Definition is_table (schema name : string) (t : table) : bool :=
  String.eqb (tschema t) schema && String.eqb (tname t) name.

Definition find_table (schema name : string) (db : database)
  : option table :=
  List.find (is_table schema name) db.

(** [SELECT EXISTS(SELECT * FROM information_schema.tables WHERE
    table_name = name)]: a table of that name in any schema. *)
Definition table_exists (name : string) (db : database) : bool :=
  existsb (fun t => String.eqb (tname t) name) db.

(** The cells of the key columns of a stored row. *)
Fixpoint key_of (cols : list column) (pk : list string) (row : list obj)
  : list obj :=
  match cols, row with
  | c :: cols', v :: row' =>
      if existsb (String.eqb (cname c)) pk
      then v :: key_of cols' pk row'
      else key_of cols' pk row'
  | _, _ => []
  end.

(** A row of fewer cells than columns is completed with NULLs. *)
Fixpoint pad (cols : list column) (row : list obj) : list obj :=
  match cols with
  | [] => []
  | _ :: cols' =>
      match row with
      | v :: row' => v :: pad cols' row'
      | [] => VNone :: pad cols' []
      end
  end.

(** The first column that must not be NULL and is. *)
Fixpoint null_violation (cols : list column) (pk : list string)
  (row : list obj) : option string :=
  match cols, row with
  | c :: cols', v :: row' =>
      match v with
      | VNone =>
          if not_null c || existsb (String.eqb (cname c)) pk
          then Some (cname c)
          else null_violation cols' pk row'
      | _ => null_violation cols' pk row'
      end
  | _, _ => None
  end.

Definition replace_table (t' : table) (db : database) : database :=
  map (fun t => if is_table (tschema t') (tname t') t then t' else t) db.

Section Server.

(** How the server converts the cells of a row to the column types
    (rounding a decimal, rejecting a string that is too long, ...) is left
    open: [coerce] gives the stored cells, or nothing when a cell does not
    fit its column. *)
Variable coerce : list column -> list obj -> option (list obj).

(** The session's current schema. *)
Variable current : string.

(** [INSERT INTO name VALUES (cells)] *)
Definition insert_row (name : string) (cells : list obj) (db : database)
  : res database :=
  match find_table current name db with
  | None => Raise (UndefinedTable name)
  | Some t =>
      if (length (columns t) <? length cells)%nat then Raise SyntaxError
      else
        match coerce (columns t) (pad (columns t) cells) with
        | None => Raise DataError
        | Some stored =>
            match null_violation (columns t) (pkey t) stored with
            | Some c => Raise (NotNullViolation c)
            | None =>
                let k := key_of (columns t) (pkey t) stored in
                if negb (Nat.eqb (length (pkey t)) 0)
                   && existsb (fun r =>
                        cells_eqb (key_of (columns t) (pkey t) r) k)
                      (rows t)
                then Raise (UniqueViolation name)
                else Ok (replace_table
                           (mkTable (tschema t) (tname t) (columns t)
                              (pkey t) (rows t ++ [stored])) db)
            end
        end
  end.

(** [CREATE TABLE name (cols, PRIMARY KEY (pk))] *)
Definition create_table (name : string) (cols : list column)
  (pk : list string) (db : database) : res database :=
  match find_table current name db with
  | Some _ => Raise (DuplicateTable name)
  | None => Ok (db ++ [mkTable current name cols pk []])
  end.

End Server.

End Db.

(** ** The world the script runs in *)

(** What the script prints. Durations are differences of clock readings. *)
Inductive line :=
| StatusCode (n : Z)
| ExtractTime (t : Z)
| TransformTime (t : Z)
| LoadTime (t : Z).

(** The calls that leave the process, in the order they are made. *)
Inductive event :=
| EGet (url : string)
| EPrint (l : line)
| ESleep (secs : Z)
| EConnect (c : nat)
| ECursor (c k : nat)
| EExecute (k : nat) (q : Db.stmt)
| EFetchone (k : nat)
| EExecuteBatch (k : nat) (table : string) (params : list string)
    (argslist : obj)
| ECommit (c : nat)
| ECursorClose (k : nat)
| EConnClose (c : nat).

(** A client connection: the uncommitted view of its open transaction,
    whether that transaction has been aborted by an error, whether the
    connection has been closed. *)
Record connection := mkConnection {
  txn : option Db.database;
  failed : bool;
  conn_closed : bool }.

(** A cursor: its connection, the rows of the last query still to be
    fetched, whether it has been closed. *)
Record cursor := mkCursor {
  conn_of : nat;
  result : option (list (list obj));
  cur_closed : bool }.

(** What the script cannot control: the clock ([perf n] is the [n]-th
    reading of [time.perf_counter()], [today] the date of the run), the
    HTTP peer (for the [n]-th request: no answer, or a status code and
    the decoded body if it is JSON), and the database server (whether it
    accepts the [n]-th connection, its current schema, its conversion of
    cells). *)
Record environment := mkEnvironment {
  perf : nat -> Z;
  today : string;
  peer : nat -> string -> option (Z * option obj);
  accepting : nat -> bool;
  current : string;
  coerce : list Db.column -> list obj -> option (list obj) }.

Record world := mkWorld {
  env : environment;
  trace : list event;
  ticks : nat;
  requests : nat;
  server : Db.database;
  conns : list connection;
  cursors : list cursor }.

(** *** State and exceptions *)

Definition M (A : Type) := world -> res A * world.

Definition ret {A} (a : A) : M A := fun w => (Ok a, w).

Definition raise {A} (e : exn) : M A := fun w => (Raise e, w).

Definition mbind {A B} (m : M A) (k : A -> M B) : M B := fun w =>
  match m w with
  | (Ok a, w') => k a w'
  | (Raise e, w') => (Raise e, w')
  end.

Notation "'let*' x ':=' m 'in' k" := (mbind m (fun x => k))
  (at level 10, x name, m at level 100, k at level 200).
Notation "m ';;' k" := (mbind m (fun _ => k))
  (at level 100, k at level 200, right associativity).

Definition lift {A} (r : res A) : M A := fun w => (r, w).

Definition log (e : event) : M unit := fun w =>
  (Ok tt, mkWorld (env w) (trace w ++ [e]) (ticks w) (requests w)
            (server w) (conns w) (cursors w)).

(** [for x in l: body(x)] *)
Fixpoint for_each {A} (l : list A) (body : A -> M unit) : M unit :=
  match l with
  | [] => ret tt
  | x :: l' => body x ;; for_each l' body
  end.

(** [time.perf_counter()] *)
Definition perf_counter : M Z := fun w =>
  (Ok (perf (env w) (ticks w)),
   mkWorld (env w) (trace w) (S (ticks w)) (requests w)
     (server w) (conns w) (cursors w)).

Definition print (l : line) : M unit := log (EPrint l).

(** [time.sleep(secs)] *)
Definition sleep (secs : Z) : M unit := log (ESleep secs).

(** [requests.get(url)]: the status code and the body. *)
Definition requests_get (url : string) : M (Z * option obj) :=
  log (EGet url) ;;
  fun w =>
    let w' := mkWorld (env w) (trace w) (ticks w) (S (requests w))
                (server w) (conns w) (cursors w) in
    match peer (env w) (requests w) url with
    | Some r => (Ok r, w')
    | None => (Raise ConnectionError, w')
    end.

(** [r.json()] *)
Definition json (body : option obj) : M obj :=
  match body with
  | Some v => ret v
  | None => raise JSONDecodeError
  end.

(** ** The database client (psycopg2) *)

Definition set_conns (cs : list connection) (w : world) : world :=
  mkWorld (env w) (trace w) (ticks w) (requests w) (server w) cs (cursors w).

Definition set_cursors (ks : list cursor) (w : world) : world :=
  mkWorld (env w) (trace w) (ticks w) (requests w) (server w) (conns w) ks.

Definition set_server (db : Db.database) (w : world) : world :=
  mkWorld (env w) (trace w) (ticks w) (requests w) db (conns w) (cursors w).

(** [psycopg2.connect(...)]: a handle on a new connection. *)
Definition connect : M nat := fun w =>
  let c := length (conns w) in
  let w' := mkWorld (env w) (trace w ++ [EConnect c]) (ticks w) (requests w)
              (server w) (conns w) (cursors w) in
  if accepting (env w) c
  then (Ok c, set_conns (conns w ++ [mkConnection None false false]) w')
  else (Raise OperationalError, w').

(** [conn.cursor()] *)
Definition cursor_of (c : nat) : M nat := fun w =>
  let k := length (cursors w) in
  let w' := mkWorld (env w) (trace w ++ [ECursor c k]) (ticks w)
              (requests w) (server w) (conns w) (cursors w) in
  match conns w !! c with
  | Some cn =>
      if conn_closed cn then (Raise InterfaceError, w')
      else (Ok k, set_cursors (cursors w ++ [mkCursor c None false]) w')
  | None => (Raise InterfaceError, w')
  end.

(** The server's answer to one statement on the view [db] of a
    transaction: the view afterwards and the rows returned, if any. *)
Definition answer (e : environment) (q : Db.stmt) (db : Db.database)
  : res (Db.database * option (list (list obj))) :=
  match q with
  | Db.SelectTableExists n => Ok (db, Some [[VBool (Db.table_exists n db)]])
  | Db.CreateTable n cols pk =>
      bind (Db.create_table (current e) n cols pk db)
        (fun db' => Ok (db', None))
  | Db.InsertValues n cells =>
      bind (Db.insert_row (coerce e) (current e) n cells db)
        (fun db' => Ok (db', None))
  | Db.Unparsable => Raise SyntaxError
  end.

(** The database as a connection sees it: the view of its open
    transaction, or what is committed. *)
Definition view_of (cn : connection) (committed : Db.database)
  : Db.database :=
  match txn cn with Some d => d | None => committed end.

(** One statement on the server, in the transaction of the cursor's
    connection; an error aborts the transaction. *)
Definition run (k : nat) (q : Db.stmt) : M unit := fun w =>
  match cursors w !! k with
  | None => (Raise InterfaceError, w)
  | Some cu =>
      match conns w !! conn_of cu with
      | None => (Raise InterfaceError, w)
      | Some cn =>
          if cur_closed cu || conn_closed cn then (Raise InterfaceError, w)
          else if failed cn then (Raise InFailedSqlTransaction, w)
          else
            let db := view_of cn (server w) in
            match answer (env w) q db with
            | Ok (db', rs) =>
                (Ok tt,
                 set_cursors
                   (<[k := mkCursor (conn_of cu) rs false]> (cursors w))
                   (set_conns
                      (<[conn_of cu := mkConnection (Some db') false false]>
                         (conns w)) w))
            | Raise e =>
                (Raise e,
                 set_conns
                   (<[conn_of cu := mkConnection (Some db) true false]>
                      (conns w)) w)
            end
      end
  end.

(** [curr.execute(q)], the parameters already bound into [q]. *)
Definition execute (k : nat) (q : Db.stmt) : M unit :=
  log (EExecute k q) ;; run k q.

(** [curr.fetchone()]: the next row of the result, or nothing. *)
Definition fetchone (k : nat) : M (option (list obj)) :=
  log (EFetchone k) ;;
  fun w =>
    match cursors w !! k with
    | None => (Raise InterfaceError, w)
    | Some cu =>
        if cur_closed cu then (Raise InterfaceError, w)
        else match result cu with
             | None => (Raise ProgrammingError, w)
             | Some [] => (Ok None, w)
             | Some (r :: rs) =>
                 (Ok (Some r),
                  set_cursors
                    (<[k := mkCursor (conn_of cu) (Some rs) false]>
                       (cursors w)) w)
             end
    end.

(** What the client can write as an SQL literal. *)
Fixpoint adaptable (v : obj) : bool :=
  match v with
  | VDict _ => false
  | VList l => forallb adaptable l
  | _ => true
  end.

(** The cells of one row: the named parameters looked up in [args]. *)
Fixpoint named (params : list string) (d : dict) : res (list obj) :=
  match params with
  | [] => Ok []
  | p :: ps =>
      match dict_get p d with
      | None => Raise (KeyError p)
      | Some v =>
          if adaptable v
          then bind (named ps d) (fun vs => Ok (v :: vs))
          else Raise ProgrammingError
      end
  end.

(** [curr.mogrify(sql, args)] for a statement with named parameters:
    nothing is bound when [args] is None. *)
Definition mogrify (params : list string) (args : obj)
  : res (option (list obj)) :=
  match args with
  | VDict d => bind (named params d) (fun vs => Ok (Some vs))
  | VNone => Ok None
  | _ => Raise (TypeError AtMogrify)
  end.

Fixpoint mogrify_all (params : list string) (page : list obj)
  : res (list (option (list obj))) :=
  match page with
  | [] => Ok []
  | a :: page' =>
      bind (mogrify params a) (fun r =>
      bind (mogrify_all params page') (fun rs => Ok (r :: rs)))
  end.

(** The statements of a page, when each has its parameters bound. *)
Fixpoint bound (rs : list (option (list obj)))
  : option (list (list obj)) :=
  match rs with
  | [] => Some []
  | Some r :: rs' =>
      match bound rs' with Some l => Some (r :: l) | None => None end
  | None :: _ => None
  end.

Definition page_size : nat := 100.

(** Pages of at most [page_size] elements. *)
Fixpoint paginate (fuel : nat) (l : list obj) : list (list obj) :=
  match fuel, l with
  | _, [] => []
  | O, _ => [l]
  | S fuel', _ => take page_size l :: paginate fuel' (drop page_size l)
  end.

(** One page: all statements are built first, then sent as one command,
    which the server parses before running its statements in order. *)
Definition execute_page (k : nat) (table : string) (params : list string)
  (page : list obj) : M unit :=
  let* rs := lift (mogrify_all params page) in
  match bound rs with
  | None => run k Db.Unparsable
  | Some rows =>
      for_each rows (fun cells => run k (Db.InsertValues table cells))
  end.

(** [psycopg2.extras.execute_batch(curr, sql, argslist)] for
    [INSERT INTO table VALUES (%(p1)s, ...)]. *)
Definition execute_batch (k : nat) (table : string) (params : list string)
  (argslist : obj) : M unit :=
  log (EExecuteBatch k table params argslist) ;;
  let* items := lift (iterate argslist) in
  for_each (paginate (length items) items) (execute_page k table params).

(** [conn.commit()] *)
Definition commit (c : nat) : M unit :=
  log (ECommit c) ;;
  fun w =>
    match conns w !! c with
    | None => (Raise InterfaceError, w)
    | Some cn =>
        if conn_closed cn then (Raise InterfaceError, w)
        else
          let w' :=
            set_conns (<[c := mkConnection None false false]> (conns w)) w in
          match txn cn with
          | Some db =>
              if failed cn then (Ok tt, w') else (Ok tt, set_server db w')
          | None => (Ok tt, w')
          end
    end.

(** [curr.close()] *)
Definition cursor_close (k : nat) : M unit :=
  log (ECursorClose k) ;;
  fun w =>
    match cursors w !! k with
    | None => (Raise InterfaceError, w)
    | Some cu =>
        (Ok tt,
         set_cursors (<[k := mkCursor (conn_of cu) None true]> (cursors w)) w)
    end.

(** [conn.close()]: an open transaction is rolled back. *)
Definition conn_close (c : nat) : M unit :=
  log (EConnClose c) ;;
  fun w =>
    match conns w !! c with
    | None => (Raise InterfaceError, w)
    | Some cn =>
        (Ok tt, set_conns (<[c := mkConnection None false true]> (conns w)) w)
    end.

(** ** The script (main.py) *)

(** Truth value of an object, for [if not exists]. *)
Definition truthy (v : obj) : bool :=
  match v with
  | VNone => false
  | VBool b => b
  | VInt z => negb (z =? 0)
  | VFloat (S754_zero _) => false
  | VFloat _ => true
  | VStr s => negb (String.eqb s "")
  | VDatetime _ => true
  | VList l => negb (Nat.eqb (length l) 0)
  | VDict d => negb (Nat.eqb (length d) 0)
  end.

(** [extract(url)] *)
Definition extract (url : string) : M obj :=
  let* time_start := perf_counter in
  let* r := requests_get url in
  print (StatusCode (fst r)) ;;
  let* response_dict := json (snd r) in
  let* t := perf_counter in
  let elapsed_time := t - time_start in
  print (ExtractTime elapsed_time) ;;
  ret response_dict.

Definition hourly_columns : list Db.column :=
  [ Db.mkColumn "ticker" (Db.Varchar 10) true;
    Db.mkColumn "datetime" Db.Timestamp true;
    Db.mkColumn "open" (Db.Decimal 10 2) false;
    Db.mkColumn "high" (Db.Decimal 10 2) false;
    Db.mkColumn "low" (Db.Decimal 10 2) false;
    Db.mkColumn "close" (Db.Decimal 10 2) false;
    Db.mkColumn "volume" Db.Bigint false ].

Definition technical_columns : list Db.column :=
  [ Db.mkColumn "ticker" (Db.Varchar 10) true;
    Db.mkColumn "datetime" Db.Timestamp true;
    Db.mkColumn "indicator" (Db.Varchar 10) true;
    Db.mkColumn "value" (Db.Decimal 10 2) false ].

(** [curr.fetchone()[0]] *)
Definition first_cell (row : option (list obj)) : res obj :=
  match row with
  | Some r => list_index r 0
  | None => Raise (TypeError AtSubscript)
  end.

(** [create_hourly_table(curr)] *)
Definition create_hourly_table (curr : nat) : M unit :=
  execute curr (Db.SelectTableExists "hourly_data") ;;
  let* row := fetchone curr in
  let* exists_ := lift (first_cell row) in
  if negb (truthy exists_) then
    execute curr
      (Db.CreateTable "hourly_data" hourly_columns ["ticker"; "datetime"])
  else ret tt.

(** [create_technical_table(curr)] *)
Definition create_technical_table (curr : nat) : M unit :=
  execute curr (Db.SelectTableExists "technical_data") ;;
  let* row := fetchone curr in
  let* exists_ := lift (first_cell row) in
  if negb (truthy exists_) then
    execute curr
      (Db.CreateTable "technical_data" technical_columns
         ["ticker"; "datetime"; "indicator"])
  else ret tt.

Definition hourly_params : list string :=
  ["symbol"; "datetime"; "open"; "high"; "low"; "close"; "volume"].

Definition technical_params : list string :=
  ["symbol"; "datetime"; "indicator"; "value"].

(** [load_hourly(hourly_data)] *)
Definition load_hourly (hourly_data : obj) : M unit :=
  let* time_start := perf_counter in
  let* conn := connect in
  let* curr := cursor_of conn in
  create_hourly_table curr ;;
  execute_batch curr "hourly_data" hourly_params hourly_data ;;
  commit conn ;;
  cursor_close curr ;;
  conn_close conn ;;
  let* t := perf_counter in
  let elapsed_time := t - time_start in
  print (LoadTime elapsed_time).

(** [load_technical(technical_data)] *)
Definition load_technical (technical_data : obj) : M unit :=
  let* time_start := perf_counter in
  let* conn := connect in
  let* curr := cursor_of conn in
  create_technical_table curr ;;
  execute_batch curr "technical_data" technical_params technical_data ;;
  commit conn ;;
  cursor_close curr ;;
  conn_close conn ;;
  let* t := perf_counter in
  let elapsed_time := t - time_start in
  print (LoadTime elapsed_time).

(** *** The normalisers

    The decoder builds a tree: a record is reachable only through its place
    in the list under ["values"], and the metadata only through ["meta"].
    A statement [value[k] = e] therefore changes that one record, and the
    function that embeds it returns the record as it is afterwards,
    together with the exception if [e] raised. *)

Definition update := dict -> dict * option exn.

(** [value[k] = rhs] *)
Definition assign (k : string) (rhs : dict -> res obj) : update :=
  fun value =>
    match rhs value with
    | Ok v => (dict_set k v value, None)
    | Raise e => (value, Some e)
    end.

Definition and_then (s1 s2 : update) : update := fun value =>
  match s1 value with
  | (value', None) => s2 value'
  | r => r
  end.

Infix ">>" := and_then (at level 90, right associativity).

(** [response_dict["meta"]["symbol"]] *)
Definition meta_symbol (response_dict : obj) : res obj :=
  bind (subscript response_dict "meta") (fun m => subscript m "symbol").

(** [value[k]] on a record. *)
Definition item (k : string) (value : dict) : res obj :=
  subscript (VDict value) k.

(** Lines 44 to 50, on a record that is a dictionary. *)
Definition hourly_body (response_dict : obj) : update :=
  assign "symbol" (fun _ => meta_symbol response_dict) >>
  assign "datetime" (fun value => bind (item "datetime" value) strptime) >>
  assign "open" (fun value => bind (item "open" value) float) >>
  assign "high" (fun value => bind (item "high" value) float) >>
  assign "low" (fun value => bind (item "low" value) float) >>
  assign "close" (fun value => bind (item "close" value) float) >>
  assign "volume" (fun value => bind (item "volume" value) int).

(** One turn of the loop of [transform_hourly].  An element that is not a
    dictionary fails at line 44: its right-hand side is evaluated, then
    the assignment into the element raises. *)
Definition hourly_step (response_dict : obj) (value : obj)
  : obj * option exn :=
  match value with
  | VDict d =>
      let '(d', e) := hourly_body response_dict d in (VDict d', e)
  | _ =>
      (value,
       Some (match meta_symbol response_dict with
             | Raise e => e
             | Ok _ => TypeError AtItemAssign
             end))
  end.

(** [for value in l: step(value)], stopping at the first exception. *)
Fixpoint each (step : obj -> obj * option exn) (l : list obj)
  : list obj * option exn :=
  match l with
  | [] => ([], None)
  | v :: l' =>
      match step v with
      | (v', None) => let '(l'', e) := each step l' in (v' :: l'', e)
      | (v', Some e) => (v' :: l', Some e)
      end
  end.

(** The elements of [response_dict["values"]] written back.  Only the
    elements of a list can have been changed. *)
Definition with_values (response_dict values : obj) (items : list obj)
  : obj :=
  match response_dict, values with
  | VDict d, VList _ => VDict (dict_set "values" (VList items) d)
  | _, _ => response_dict
  end.

(** Lines 43 to 50 of [transform_hourly]: the document afterwards, and the
    exception if one was raised. *)
Definition transform_hourly_loop (response_dict : obj)
  : obj * option exn :=
  match subscript response_dict "values" with
  | Raise e => (response_dict, Some e)
  | Ok values =>
      match iterate values with
      | Raise e => (response_dict, Some e)
      | Ok items =>
          let '(items', e) := each (hourly_step response_dict) items in
          (with_values response_dict values items', e)
      end
  end.

(** [transform_hourly(response_dict)].  The result is the document as the
    call leaves it. *)
Definition transform_hourly (response_dict : obj) : M obj :=
  let* time_start := perf_counter in
  match transform_hourly_loop response_dict with
  | (_, Some e) => raise e
  | (response_dict', None) =>
      let* t := perf_counter in
      let elapsed_time := t - time_start in
      print (TransformTime elapsed_time) ;;
      let* values := lift (subscript response_dict' "values") in
      load_hourly values ;;
      ret response_dict'
  end.

(** [list(value.keys())] *)
Definition keys_of (value : obj) : res (list string) :=
  match value with
  | VDict d => Ok (keys d)
  | _ => Raise (AttributeError AtKeys)
  end.

(** Lines 69 to 73: the dictionary built for one record. *)
Definition technical_row (response_dict : obj) (indicator : string)
  (value : obj) : res obj :=
  let value_dict : dict := [] in
  bind (meta_symbol response_dict) (fun v1 =>
  let value_dict := dict_set "symbol" v1 value_dict in
  bind (bind (subscript value "datetime") strptime) (fun v2 =>
  let value_dict := dict_set "datetime" v2 value_dict in
  bind (bind (keys_of value) (fun ks => list_index ks 1)) (fun v3 =>
  let value_dict := dict_set "indicator" (VStr v3) value_dict in
  bind (bind (subscript value indicator) float) (fun v4 =>
  let value_dict := dict_set "value" v4 value_dict in
  Ok (VDict value_dict))))).

(** [value_list.append(...)] over the elements, stopping at the first
    exception. *)
Fixpoint collect (row : obj -> res obj) (l : list obj)
  : res (list obj) :=
  match l with
  | [] => Ok []
  | v :: l' =>
      bind (row v) (fun r => bind (collect row l') (fun rs => Ok (r :: rs)))
  end.

(** Lines 67 to 74 of [transform_technical]: [value_list]. *)
Definition transform_technical_loop (response_dict : obj)
  (indicator : string) : res (list obj) :=
  bind (subscript response_dict "values") (fun values =>
  bind (iterate values) (fun items =>
  collect (technical_row response_dict indicator) items)).

(** [transform_technical(response_dict, indicator)].  No statement of the
    function assigns into the document or its records; the result is the
    document as the call leaves it, which is as it came. *)
Definition transform_technical (response_dict : obj) (indicator : string)
  : M obj :=
  let* time_start := perf_counter in
  let* value_list := lift (transform_technical_loop response_dict indicator) in
  let* t := perf_counter in
  let elapsed_time := t - time_start in
  print (TransformTime elapsed_time) ;;
  load_technical (VList value_list) ;;
  ret response_dict.

(** *** Script start *)

Definition tickers : list string :=
  ["SPY"; "XOM"; "USDX"; "VIXY"; "GLD"; "QQQ"; "ARKK"; "IBIT"].

Definition technical_indicators : list string :=
  ["adx"; "rsi"; "percent_b"; "ema"].

Definition hourly_url (ticker : string) : string :=
  ("https://api.twelvedata.com/time_series?apikey=YOUR_API_KEY&interval=30min&symbol="
   ++ ticker ++ "&outputsize=13&date=today")%string.

Definition technical_url (technical_indicator ticker date : string)
  : string :=
  ("https://api.twelvedata.com/" ++ technical_indicator
   ++ "?apikey=YOUR_API_KEY&interval=30min&symbol=" ++ ticker
   ++ "&outputsize=13&start_date=" ++ date)%string.

(** [datetime.today().strftime("%Y-%m-%d")] *)
Definition today_string : M string := fun w => (Ok (today (env w)), w).

Definition script : M unit :=
  let* date := today_string in
  for_each tickers (fun ticker =>
    let url := hourly_url ticker in
    let* data := extract url in
    let* _ := transform_hourly data in
    ret tt) ;;
  sleep 100 ;;
  for_each tickers (fun ticker =>
    for_each technical_indicators (fun technical_indicator =>
      let url := technical_url technical_indicator ticker date in
      let* data := extract url in
      let* _ := transform_technical data technical_indicator in
      sleep 60)).

(** ** What the normalisers are expected to produce *)

(** A bar as the bar table stores it. *)
Record BarRow := mkBarRow {
  b_ticker : obj;
  b_timestamp : datetime;
  b_open : spec_float;
  b_high : spec_float;
  b_low : spec_float;
  b_close : spec_float;
  b_volume : Z }.

(** An indicator observation as the indicator table stores it. *)
Record IndicatorRow := mkIndicatorRow {
  i_ticker : obj;
  i_timestamp : datetime;
  i_indicator : string;
  i_value : spec_float }.

(** The entry at [k] as a timestamp, a decimal, an integer. *)
Definition get_time (k : string) (d : dict) : option datetime :=
  match dict_get k d with
  | Some (VDatetime t) => Some t
  | _ => None
  end.

Definition get_float (k : string) (d : dict) : option spec_float :=
  match dict_get k d with
  | Some (VFloat f) => Some f
  | _ => None
  end.

Definition get_int (k : string) (d : dict) : option Z :=
  match dict_get k d with
  | Some (VInt z) => Some z
  | _ => None
  end.

Definition get_str (k : string) (d : dict) : option string :=
  match dict_get k d with
  | Some (VStr s) => Some s
  | _ => None
  end.

(** The entry at [k] of a raw record, decoded by a builtin. *)
Definition decoded (conv : obj -> res obj) (k : string) (d : dict)
  : option obj :=
  match dict_get k d with
  | Some x => match conv x with Ok y => Some y | Raise _ => None end
  | None => None
  end.

Definition decoded_time (k : string) (d : dict) : option datetime :=
  match decoded strptime k d with Some (VDatetime t) => Some t | _ => None end.

Definition decoded_float (k : string) (d : dict) : option spec_float :=
  match decoded float k d with Some (VFloat f) => Some f | _ => None end.

Definition decoded_int (k : string) (d : dict) : option Z :=
  match decoded int k d with Some (VInt z) => Some z | _ => None end.

(** The bar a raw record stands for: its datetime string parsed, its
    prices and its volume decoded, under the symbol [sym]. *)
Definition decode_bar (sym : obj) (d : dict) : option BarRow :=
  t ← decoded_time "datetime" d;
  o ← decoded_float "open" d;
  h ← decoded_float "high" d;
  l ← decoded_float "low" d;
  c ← decoded_float "close" d;
  v ← decoded_int "volume" d;
  Some (mkBarRow sym t o h l c v).

(** The bar a normalised row holds, read by the names that the INSERT
    statement of [load_hourly] uses. *)
Definition as_bar_row (row : obj) : option BarRow :=
  match row with
  | VDict d =>
      sym ← dict_get "symbol" d;
      t ← get_time "datetime" d;
      o ← get_float "open" d;
      h ← get_float "high" d;
      l ← get_float "low" d;
      c ← get_float "close" d;
      v ← get_int "volume" d;
      Some (mkBarRow sym t o h l c v)
  | _ => None
  end.

(** The observation a raw record stands for: the label is its second
    key, the value its entry at [indicator]. *)
Definition decode_indicator (sym : obj) (indicator : string) (d : dict)
  : option IndicatorRow :=
  t ← decoded_time "datetime" d;
  k ← nth_error (keys d) 1;
  v ← decoded_float indicator d;
  Some (mkIndicatorRow sym t k v).

Definition as_indicator_row (row : obj) : option IndicatorRow :=
  match row with
  | VDict d =>
      sym ← dict_get "symbol" d;
      t ← get_time "datetime" d;
      k ← get_str "indicator" d;
      v ← get_float "value" d;
      Some (mkIndicatorRow sym t k v)
  | _ => None
  end.

(** A record after lines 44 to 50. *)
Definition normalized_bar (d : dict) (r : BarRow) : dict :=
  dict_set "volume" (VInt (b_volume r))
 (dict_set "close" (VFloat (b_close r))
 (dict_set "low" (VFloat (b_low r))
 (dict_set "high" (VFloat (b_high r))
 (dict_set "open" (VFloat (b_open r))
 (dict_set "datetime" (VDatetime (b_timestamp r))
 (dict_set "symbol" (b_ticker r) d)))))).

Definition indicator_dict (r : IndicatorRow) : dict :=
  [("symbol", i_ticker r); ("datetime", VDatetime (i_timestamp r));
   ("indicator", VStr (i_indicator r)); ("value", VFloat (i_value r))].

(** A raw bar record that is valid: a dictionary whose datetime string
    parses and whose prices and volume decode. *)
Definition valid_bar_record (sym : obj) (v : obj) : Prop :=
  exists d, v = VDict d /\ is_Some (decode_bar sym d).

(** [row] holds the bar that the raw record [v] stands for. *)
Definition bar_row_of (sym : obj) (v row : obj) : Prop :=
  exists d r, v = VDict d /\ decode_bar sym d = Some r /\
              as_bar_row row = Some r.

(** What [transform_hourly] does once its loop has left the document as
    [response_dict'] with [values] under ["values"]: it prints the time
    and hands [values] to the loader. *)
Definition hand_over_hourly (response_dict' values : obj) : M obj :=
  let* time_start := perf_counter in
  let* t := perf_counter in
  print (TransformTime (t - time_start)) ;;
  load_hourly values ;;
  ret response_dict'.

(** ** Sample documents and worlds *)

(** The bar document of the end-to-end example. *)
Definition spy : obj :=
  VDict [("meta", VDict [("symbol", VStr "SPY")]);
         ("values",
          VList [VDict [("datetime", VStr "2024-01-01 09:30:00");
                        ("open", VStr "470.1"); ("high", VStr "471.0");
                        ("low", VStr "469.8"); ("close", VStr "470.5");
                        ("volume", VStr "1000000")]])].

Definition spy_record : dict :=
  [("datetime", VStr "2024-01-01 09:30:00");
   ("open", VStr "470.1"); ("high", VStr "471.0");
   ("low", VStr "469.8"); ("close", VStr "470.5");
   ("volume", VStr "1000000")].

Definition spy_records : list obj := [VDict spy_record].

(** A raw indicator record that is valid for the name [indicator]: a
    dictionary with a second key, whose datetime string parses and whose
    entry at [indicator] decodes. *)
Definition valid_indicator_record (sym : obj) (indicator : string) (v : obj)
  : Prop :=
  exists d, v = VDict d /\ is_Some (decode_indicator sym indicator d).

(** [row] holds the observation that the raw record [v] stands for. *)
Definition indicator_row_of (sym : obj) (indicator : string) (v row : obj)
  : Prop :=
  exists d r, v = VDict d /\ decode_indicator sym indicator d = Some r /\
              as_indicator_row row = Some r.

(** What [transform_technical] does once its loop has built the list
    [value_list]. *)
Definition hand_over_technical (response_dict value_list : obj) : M obj :=
  let* time_start := perf_counter in
  let* t := perf_counter in
  print (TransformTime (t - time_start)) ;;
  load_technical value_list ;;
  ret response_dict.


(** [list(value.keys())[1]] *)
Definition second_key (value : obj) : res string :=
  bind (keys_of value) (fun ks => list_index ks 1).

(** The indicator document of the end-to-end example. *)
Definition spy_rsi : obj :=
  VDict [("meta", VDict [("symbol", VStr "SPY")]);
         ("values",
          VList [VDict [("datetime", VStr "2024-01-01 09:30:00");
                        ("rsi", VStr "55.2")]])].

Definition spy_rsi_records : list obj :=
  [VDict [("datetime", VStr "2024-01-01 09:30:00"); ("rsi", VStr "55.2")]].

(** A document whose only record has one key. *)
Definition one_key : obj :=
  VDict [("meta", VDict [("symbol", VStr "SPY")]);
         ("values",
          VList [VDict [("datetime", VStr "2024-01-01 09:30:00")]])].

(** A bar document whose record has a negative volume. *)
Definition negative_volume : obj :=
  VDict [("meta", VDict [("symbol", VStr "SPY")]);
         ("values",
          VList [VDict [("datetime", VStr "2024-01-01 09:30:00");
                        ("open", VStr "470.1"); ("high", VStr "471.0");
                        ("low", VStr "469.8"); ("close", VStr "470.5");
                        ("volume", VStr "-5")]])].

(** A bar record whose datetime is malformed and whose open is missing. *)
Definition bad_datetime_no_open : dict :=
  [("datetime", VStr "2024-01-01T09:30:00");
   ("high", VStr "471.0"); ("low", VStr "469.8");
   ("close", VStr "470.5"); ("volume", VStr "1000000")].

(** The exception of a datetime string that does not parse. *)
Definition is_parse_failure (e : exn) : bool :=
  match e with
  | ValueError AtStrptime => true
  | _ => false
  end.

(** The exceptions of the casts: a missing entry, and what [float] and
    [int] raise. *)
Definition is_cast_failure (e : exn) : bool :=
  match e with
  | KeyError k =>
      existsb (String.eqb k) ["open"; "high"; "low"; "close"; "volume"]
  | ValueError AtFloat | ValueError AtInt
  | TypeError AtFloat | TypeError AtInt
  | OverflowError AtFloat | OverflowError AtInt => true
  | _ => false
  end.

(** The datetime entry of a record parses. *)
Definition datetime_ok (d : dict) : Prop :=
  is_Some (decoded_time "datetime" d).

(** The prices and the volume of a record are present and decode. *)
Definition fields_ok (d : dict) : Prop :=
  is_Some (decoded_float "open" d) /\ is_Some (decoded_float "high" d) /\
  is_Some (decoded_float "low" d) /\ is_Some (decoded_float "close" d) /\
  is_Some (decoded_int "volume" d).

(** The exception of lines 44 to 50 on a record, if any. *)
Definition hourly_failure (response_dict : obj) (d : dict) : option exn :=
  snd (hourly_body response_dict d).

(** ** The loaders, seen from one session

    [create_hourly_table] and [create_technical_table] are one routine
    for two tables, and so are [load_hourly] and [load_technical]. *)

Definition ensure_table (table : string) (cols : list Db.column)
  (pk : list string) (curr : nat) : M unit :=
  execute curr (Db.SelectTableExists table) ;;
  let* row := fetchone curr in
  let* exists_ := lift (first_cell row) in
  if negb (truthy exists_) then execute curr (Db.CreateTable table cols pk)
  else ret tt.

Definition load (table : string) (cols : list Db.column) (pk : list string)
  (params : list string) (data : obj) : M unit :=
  let* time_start := perf_counter in
  let* conn := connect in
  let* curr := cursor_of conn in
  ensure_table table cols pk curr ;;
  execute_batch curr table params data ;;
  commit conn ;;
  cursor_close curr ;;
  conn_close conn ;;
  let* t := perf_counter in
  let elapsed_time := t - time_start in
  print (LoadTime elapsed_time).

(** The world of a call that has opened one connection and one cursor on
    it, in the world [w]: what it has logged, the clock readings so far,
    what is committed on the server, the view and state of its
    transaction, the pending rows of the cursor, and whether cursor and
    connection have been closed. *)
Definition session (w : world) (tr : list event) (tk : nat)
  (srv : Db.database) (view : option Db.database) (fl : bool)
  (rs : option (list (list obj))) (kclosed cclosed : bool) : world :=
  mkWorld (env w) (trace w ++ tr) tk (requests w) srv
    (conns w ++ [mkConnection view fl cclosed])
    (cursors w ++ [mkCursor (length (conns w)) rs kclosed]).

(** The view of the database after [ensure_table]. *)
Definition ensured (schema table : string) (cols : list Db.column)
  (pk : list string) (db : Db.database) : Db.database :=
  if Db.table_exists table db then db
  else db ++ [Db.mkTable schema table cols pk []].

(** The rows of a page inserted in order into a view. *)
Fixpoint insert_rows (e : environment) (table : string)
  (rows : list (list obj)) (db : Db.database) : res Db.database :=
  match rows with
  | [] => Ok db
  | cells :: rows' =>
      bind (Db.insert_row (coerce e) (current e) table cells db)
        (insert_rows e table rows')
  end.

Definition insert_page (e : environment) (table : string)
  (params : list string) (page : list obj) (db : Db.database)
  : res Db.database :=
  bind (mogrify_all params page) (fun rs =>
    match bound rs with
    | None => Raise SyntaxError
    | Some rows => insert_rows e table rows db
    end).

Fixpoint insert_pages (e : environment) (table : string)
  (params : list string) (pages : list (list obj)) (db : Db.database)
  : res Db.database :=
  match pages with
  | [] => Ok db
  | page :: pages' =>
      bind (insert_page e table params page db)
        (insert_pages e table params pages')
  end.

(** The view of the database after the batch, or its exception. *)
Definition insert_batch (e : environment) (table : string)
  (params : list string) (data : obj) (db : Db.database)
  : res Db.database :=
  bind (iterate data) (fun items =>
    insert_pages e table params (paginate (length items) items) db).

(** The calls of a loader, up to the batch and after it. *)
Definition load_prefix (c k : nat) (table : string) (cols : list Db.column)
  (pk : list string) (created : bool) : list event :=
  [EConnect c; ECursor c k; EExecute k (Db.SelectTableExists table);
   EFetchone k]
  ++ (if created then [EExecute k (Db.CreateTable table cols pk)] else []).

Definition load_suffix (c k : nat) (t : Z) : list event :=
  [ECommit c; ECursorClose k; EConnClose c; EPrint (LoadTime t)].

(** A commit or a close. *)
Definition is_release (ev : event) : bool :=
  match ev with
  | ECommit _ | ECursorClose _ | EConnClose _ => true
  | _ => false
  end.

(** What a loader for [table] does with [data] in the world [w], where
    [c] and [k] are the handles of the connection and the cursor that the
    call opens.  When it returns: it has connected, ensured the table,
    sent one batch with all of [data], committed, closed the cursor and
    the connection and printed the time, in this order; what is committed
    is the view of its one transaction after the batch; cursor and
    connection are closed.  When it raises: nothing is committed, the
    call has made no commit and no close, and a connection and a cursor
    that it opened are still open. *)
Definition loader_contract (loader : obj -> M unit) (table : string)
  (cols : list Db.column) (pk params : list string) : Prop :=
  forall data w,
    let c := length (conns w) in
    let k := length (cursors w) in
    match loader data w with
    | (Ok _, w') =>
        exists created t db,
          trace w' = trace w ++ load_prefix c k table cols pk created
                             ++ [EExecuteBatch k table params data]
                             ++ load_suffix c k t /\
          insert_batch (env w) table params data
            (ensured (current (env w)) table cols pk (server w)) = Ok db /\
          server w' = db /\
          conns w' = conns w ++ [mkConnection None false true] /\
          cursors w' = cursors w ++ [mkCursor c None true]
    | (Raise e, w') =>
        server w' = server w /\
        (exists tr, trace w' = trace w ++ tr /\
                    forallb (fun ev => negb (is_release ev)) tr = true) /\
        (forall cn, conns w' !! c = Some cn -> conn_closed cn = false) /\
        (forall cu, cursors w' !! k = Some cu -> cur_closed cu = false)
    end.

(** The bar of the end-to-end example, and its row. *)
Definition spy_bar : BarRow :=
  mkBarRow (VStr "SPY") (mkDatetime 2024 1 1 9 30 0)
    (S754_finite false 8270086659479962 (-44))
    (S754_finite false 8285919626919936 (-44))
    (S754_finite false 8264809003666637 (-44))
    (S754_finite false 8277123533897728 (-44))
    1000000.

Definition spy_row : obj := VDict (normalized_bar spy_record spy_bar).

(** The same bar twice: the second insert violates the primary key. *)
Definition duplicate_rows : obj := VList [spy_row; spy_row].

(** A world with an empty database that accepts connections, a peer that
    answers every request with a document whose symbol is the URL, and a
    server that stores cells as they come. *)
Definition sample_document (url : string) : obj :=
  VDict [("meta", VDict [("symbol", VStr url)]);
         ("values",
          VList [VDict [("datetime", VStr "2024-01-01 09:30:00");
                        ("adx", VStr "1.5"); ("rsi", VStr "55.2");
                        ("percent_b", VStr "0.5"); ("ema", VStr "470.5");
                        ("open", VStr "470.1"); ("high", VStr "471.0");
                        ("low", VStr "469.8"); ("close", VStr "470.5");
                        ("volume", VStr "1000000")]])].

Definition sample_env : environment :=
  mkEnvironment (fun n => Z.of_nat n) "2024-01-01"
    (fun _ url => Some (200, Some (sample_document url)))
    (fun _ => true) "public" (fun _ cells => Some cells).

Definition sample_world : world := mkWorld sample_env [] 0 0 [] [] [].

(** The cursor [k] can be used in [w]: it is open, its connection is open
    and its transaction is not aborted.  [db] is the database as the
    connection sees it and [rs] the rows the cursor has still to give. *)
Definition usable (w : world) (k : nat) (db : Db.database)
  (rs : option (list (list obj))) : Prop :=
  exists c view,
    cursors w !! k = Some (mkCursor c rs false) /\
    conns w !! c = Some (mkConnection view false false) /\
    view_of (mkConnection view false false) (server w) = db.

(** What calling the table routine [create] twice in a row does, from a
    world where the cursor [curr] can be used and sees the database
    [db]: neither call raises; after the first, the cursor sees [db]
    with the table added when no table of that name was listed, and
    otherwise [db] itself; after the second, it sees the same database
    as after the first, and the second call has only looked the table
    up. *)
Definition ensured_twice (create : nat -> M unit) (table : string)
  (cols : list Db.column) (pk : list string) (w : world) (curr : nat)
  (db : Db.database) : Prop :=
  exists w1 w2 rs1 rs2,
    create curr w = (Ok tt, w1) /\
    create curr w1 = (Ok tt, w2) /\
    usable w1 curr (ensured (current (env w)) table cols pk db) rs1 /\
    usable w2 curr (ensured (current (env w)) table cols pk db) rs2 /\
    (if Db.table_exists table db
     then ensured (current (env w)) table cols pk db = db
     else ensured (current (env w)) table cols pk db
          = db ++ [Db.mkTable (current (env w)) table cols pk []]) /\
    trace w2 = trace w1 ++ [EExecute curr (Db.SelectTableExists table);
                            EFetchone curr] /\
    server w1 = server w /\ server w2 = server w.

(** The sample world after a connection and a cursor have been opened. *)
Definition sample_session : world :=
  session sample_world [EConnect 0; ECursor 0 0] 1 [] None false None
    false false.

(** A document with no record. *)
Definition no_values : obj :=
  VDict [("meta", VDict [("symbol", VStr "SPY")]); ("values", VList [])].

(** ** The stages of a run

    Of the calls of a run, those that mark its stages: a request to the
    peer, the end of a normalisation (its timing line), a batch sent to a
    table, a pause. *)
Inductive stage :=
| Fetch (url : string)
| Normalized
| Stored (table : string)
| Pause (secs : Z).

Definition stage_of (ev : event) : option stage :=
  match ev with
  | EGet url => Some (Fetch url)
  | EPrint (TransformTime _) => Some Normalized
  | EExecuteBatch _ table _ _ => Some (Stored table)
  | ESleep secs => Some (Pause secs)
  | _ => None
  end.

Definition stages (tr : list event) : list stage := omap stage_of tr.

(** The stages of a complete run on the date [date]: the bar stage for
    every instrument, one long pause, then the indicator stage for every
    pair of instrument and indicator with a short pause after each. *)
Definition schedule (date : string) : list stage :=
  flat_map (fun ticker =>
              [Fetch (hourly_url ticker); Normalized; Stored "hourly_data"])
    tickers
  ++ [Pause 100]
  ++ flat_map (fun ticker =>
       flat_map (fun technical_indicator =>
                   [Fetch (technical_url technical_indicator ticker date);
                    Normalized; Stored "technical_data"; Pause 60])
         technical_indicators)
     tickers.

(** Every run of [m] goes through the stages [full] in order: all of them
    when it returns, those before the failing step when it raises. *)
Definition goes_through {A} (m : M A) (full : list stage) : Prop :=
  forall w,
    exists tr,
      trace (snd (m w)) = trace w ++ tr /\
      match fst (m w) with
      | Ok _ => stages tr = full
      | Raise _ => stages tr `prefix_of` full
      end.

(** ** Failures ahead of the database *)

(** The world [w] after one more reading of the clock. *)
Definition tick (w : world) : world :=
  mkWorld (env w) (trace w) (S (ticks w)) (requests w) (server w)
    (conns w) (cursors w).

(** The world after [extract(url)] has sent its request in [w] and
    printed [lines], having read the clock [n] times. *)
Definition requested (w : world) (url : string) (lines : list line)
  (n : nat) : world :=
  mkWorld (env w) (trace w ++ EGet url :: map EPrint lines)
    (n + ticks w) (S (requests w)) (server w) (conns w) (cursors w).

(** The body of an error answer of the API. *)
Definition error_document : obj :=
  VDict [("code", VInt 429); ("message", VStr "out of API credits");
         ("status", VStr "error")].

(** A world whose peer answers every request with the status 429 and the
    error document. *)
Definition error_world : world :=
  mkWorld
    (mkEnvironment (fun n => Z.of_nat n) "2024-01-01"
       (fun _ _ => Some (429, Some error_document))
       (fun _ => true) "public" (fun _ cells => Some cells))
    [] 0 0 [] [] [].

(** A bar document whose second record has a volume that is no integer. *)
Definition second_record_bad : obj :=
  VDict [("meta", VDict [("symbol", VStr "SPY")]);
         ("values",
          VList [VDict spy_record;
                 VDict [("datetime", VStr "2024-01-01 10:00:00");
                        ("open", VStr "470.1"); ("high", VStr "471.0");
                        ("low", VStr "469.8"); ("close", VStr "470.5");
                        ("volume", VStr "1.5e6")];
                 VDict spy_record])].

(** The exception of lines 69 to 73 on a record, if any. *)
Definition technical_failure (response_dict : obj) (indicator : string)
  (d : dict) : option exn :=
  match technical_row response_dict indicator (VDict d) with
  | Raise e => Some e
  | Ok _ => None
  end.

(** What [float] raises. *)
Definition is_float_failure (e : exn) : bool :=
  match e with
  | ValueError AtFloat | TypeError AtFloat | OverflowError AtFloat => true
  | _ => false
  end.

(** The record of the indicator document of the end-to-end example. *)
Definition rsi_record : dict :=
  [("datetime", VStr "2024-01-01 09:30:00"); ("rsi", VStr "55.2")].

(** ** What a loader leaves in the database *)

(** The rows of the table [name] of [schema]; none when there is no such
    table. *)
Definition rows_of (schema name : string) (db : Db.database)
  : list (list obj) :=
  match Db.find_table schema name db with
  | Some t => Db.rows t
  | None => []
  end.

(** The columns that the cells of a loader are converted to: those of the
    table that it finds in [schema], or those that it creates the table
    with. *)
Definition columns_for (schema name : string) (cols : list Db.column)
  (db : Db.database) : list Db.column :=
  match Db.find_table schema name db with
  | Some t => Db.columns t
  | None => cols
  end.

(** The cells that the client binds for the element [item] of a batch. *)
Definition binds (params : list string) (item : obj) (cells : list obj)
  : Prop :=
  mogrify params item = Ok (Some cells).

(** [row] is what the server stores for the element [item] of a batch:
    its named parameters, completed with NULLs and converted to the
    columns. *)
Definition stored_as (e : environment) (cols : list Db.column)
  (params : list string) (item : obj) (row : list obj) : Prop :=
  exists cells,
    binds params item cells /\
    coerce e cols (Db.pad cols cells) = Some row.

(** The table [t] with the rows [more] after its own. *)
Definition with_rows (t : Db.table) (more : list (list obj)) : Db.table :=
  Db.mkTable (Db.tschema t) (Db.tname t) (Db.columns t) (Db.pkey t)
    (Db.rows t ++ more).

(** What a loader that has returned leaves in the table [table] of the
    current schema: the rows that were there, then one stored row for
    every element of the batch, in the order of the batch.  The other
    tables are as they were. *)
Definition appended (table : string) (cols : list Db.column)
  (params : list string) (items : list obj) (w w' : world) : Prop :=
  let schema := current (env w) in
  exists stored,
    rows_of schema table (server w')
    = rows_of schema table (server w) ++ stored /\
    Forall2 (stored_as (env w) (columns_for schema table cols (server w))
               params) items stored /\
    forall s n, s <> schema \/ n <> table ->
                Db.find_table s n (server w') = Db.find_table s n (server w).

(** The row built from the indicator document of the end-to-end
    example. *)
Definition spy_rsi_row : obj :=
  Eval vm_compute in
    match transform_technical_loop spy_rsi "rsi" with
    | Ok (row :: _) => row
    | _ => VNone
    end.



(** The cells of a bar and of an observation, in the order of the columns
    of their tables. *)
Definition bar_cells (b : BarRow) : list obj :=
  [b_ticker b; VDatetime (b_timestamp b); VFloat (b_open b);
   VFloat (b_high b); VFloat (b_low b); VFloat (b_close b);
   VInt (b_volume b)].

Definition indicator_cells (i : IndicatorRow) : list obj :=
  [i_ticker i; VDatetime (i_timestamp i); VStr (i_indicator i);
   VFloat (i_value i)].

(** [row] is what the server stores for the cells [cells] in a table of
    columns [cols]. *)
Definition stores (e : environment) (cols : list Db.column)
  (cells row : list obj) : Prop :=
  coerce e cols (Db.pad cols cells) = Some row.

(** ** The connections of a run *)

(** A connection after [conn.close()]. *)
Definition closed_connection : connection := mkConnection None false true.

(** Every run of [m] opens at most [n] connections.  When it returns, it
    has opened [n] connections and closed each of them.  When it raises,
    it has closed the connections that it opened, except the last one
    when the failure came after that one was opened. *)
Definition opens {A} (m : M A) (n : nat) : Prop :=
  forall w,
    match fst (m w) with
    | Ok _ => conns (snd (m w)) = conns w ++ replicate n closed_connection
    | Raise _ =>
        exists k rest,
          (k + length rest <= n)%nat /\
          conns (snd (m w))
          = conns w ++ replicate k closed_connection ++ rest /\
          (length rest <= 1)%nat /\
          Forall (fun cn => conn_closed cn = false) rest
    end.

(** Every run of [m] keeps what the tables hold: the rows that a table had
    are still its first rows afterwards, in the same order. *)
Definition keeps_rows {A} (m : M A) : Prop :=
  forall w schema name,
    rows_of schema name (server w)
    `prefix_of` rows_of schema name (server (snd (m w))).

(** ** Properties *)

Section Dictionaries.

Lemma dict_get_set_eq k v d : dict_get k (dict_set k v d) = Some v.
Proof.
  induction d as [|[k' v'] d IH]; simpl.
  - by rewrite String.eqb_refl.
  - destruct (String.eqb k k') eqn:E; simpl; rewrite ?E; auto.
    by rewrite String.eqb_refl.
Qed.

Lemma dict_get_set_ne k k' v d :
  k <> k' -> dict_get k' (dict_set k v d) = dict_get k' d.
Proof.
  intros Hne. induction d as [|[k0 v0] d IH]; simpl.
  - destruct (String.eqb k' k) eqn:E; auto.
    apply String.eqb_eq in E. congruence.
  - destruct (String.eqb k k0) eqn:E; simpl.
    + apply String.eqb_eq in E. subst k0.
      destruct (String.eqb k' k) eqn:E'; auto.
      apply String.eqb_eq in E'. congruence.
    + by rewrite IH.
Qed.

Lemma dict_set_length_ge k v d : (length d <= length (dict_set k v d))%nat.
Proof.
  induction d as [|[k' v'] d IH]; simpl; [lia|].
  destruct (String.eqb k k'); simpl; lia.
Qed.

End Dictionaries.

Ltac dict_simpl :=
  repeat first
    [ rewrite dict_get_set_eq
    | rewrite dict_get_set_ne by discriminate ].

Section Builtins.

Lemma float_returns_float x y : float x = Ok y -> exists f, y = VFloat f.
Proof.
  destruct x; simpl; try discriminate.
  - destruct (float_of_int _); simpl; [|discriminate].
    intros [= <-]; eauto.
  - destruct (float_of_int z); simpl; [|discriminate].
    intros [= <-]; eauto.
  - intros [= <-]; eauto.
  - destruct (float_of_string s); simpl; [|discriminate].
    intros [= <-]; eauto.
Qed.

Lemma int_returns_int x y : int x = Ok y -> exists z, y = VInt z.
Proof.
  destruct x; simpl; try discriminate.
  - intros [= <-]; eauto.
  - intros [= <-]; eauto.
  - destruct (int_of_float f); simpl; [|discriminate].
    intros [= <-]; eauto.
  - destruct (int_of_string s); simpl; [|discriminate].
    intros [= <-]; eauto.
Qed.

Lemma strptime_returns_datetime x y :
  strptime x = Ok y ->
  exists s t, x = VStr s /\ strptime_string s = Ok t /\ y = VDatetime t.
Proof.
  destruct x; simpl; try discriminate.
  destruct (strptime_string s) eqn:E; simpl; [|discriminate].
  intros [= <-]; eauto.
Qed.

Lemma decoded_time_eq k d t :
  decoded_time k d = Some t <-> decoded strptime k d = Some (VDatetime t).
Proof.
  unfold decoded_time. split.
  - destruct (decoded strptime k d) as [y|] eqn:E; [|discriminate].
    unfold decoded in E. destruct (dict_get k d); [|discriminate].
    destruct (strptime o) eqn:E'; [|discriminate].
    destruct (strptime_returns_datetime _ _ E') as (?&?&?&?&->).
    injection E as <-. by intros [= ->].
  - by intros ->.
Qed.

Lemma decoded_float_eq k d f :
  decoded_float k d = Some f <-> decoded float k d = Some (VFloat f).
Proof.
  unfold decoded_float. split.
  - destruct (decoded float k d) as [y|] eqn:E; [|discriminate].
    unfold decoded in E. destruct (dict_get k d); [|discriminate].
    destruct (float o) eqn:E'; [|discriminate].
    destruct (float_returns_float _ _ E') as (?&->).
    injection E as <-. by intros [= ->].
  - by intros ->.
Qed.

Lemma decoded_int_eq k d z :
  decoded_int k d = Some z <-> decoded int k d = Some (VInt z).
Proof.
  unfold decoded_int. split.
  - destruct (decoded int k d) as [y|] eqn:E; [|discriminate].
    unfold decoded in E. destruct (dict_get k d); [|discriminate].
    destruct (int o) eqn:E'; [|discriminate].
    destruct (int_returns_int _ _ E') as (?&->).
    injection E as <-. by intros [= ->].
  - by intros ->.
Qed.

Lemma decoded_set_ne (conv : obj -> res obj) k k0 v d :
  k0 <> k -> decoded conv k (dict_set k0 v d) = decoded conv k d.
Proof. intros. unfold decoded. by rewrite dict_get_set_ne. Qed.

(** Reading an entry and converting it, as the right-hand sides do. *)
Lemma item_conv (conv : obj -> res obj) k d :
  bind (item k d) conv =
  match dict_get k d with
  | Some x => conv x
  | None => Raise (KeyError k)
  end.
Proof. unfold item, subscript. by destruct (dict_get k d). Qed.

Lemma item_decoded (conv : obj -> res obj) k d y :
  bind (item k d) conv = Ok y <-> decoded conv k d = Some y.
Proof.
  rewrite item_conv. unfold decoded.
  destruct (dict_get k d); [|split; discriminate].
  destruct (conv o); split; congruence.
Qed.

End Builtins.

Section Updates.

Lemma assign_ok k rhs d d' :
  assign k rhs d = (d', None) <->
  exists v, rhs d = Ok v /\ d' = dict_set k v d.
Proof.
  unfold assign. destruct (rhs d); split.
  - intros [= <-]. eauto.
  - by intros (?&[= <-]&->).
  - discriminate.
  - by intros (?&?&_).
Qed.

Lemma and_then_ok s1 s2 d d' :
  (s1 >> s2) d = (d', None) <->
  exists d1, s1 d = (d1, None) /\ s2 d1 = (d', None).
Proof.
  unfold and_then. destruct (s1 d) as [d1 [e|]]; split.
  - discriminate.
  - by intros (?&?&_).
  - eauto.
  - by intros (?&[= <-]&?).
Qed.

Lemma decoded_strptime_inv k d y :
  decoded strptime k d = Some y ->
  exists t, y = VDatetime t /\ decoded_time k d = Some t.
Proof.
  intros H. unfold decoded_time. rewrite H.
  unfold decoded in H. destruct (dict_get k d); [|discriminate].
  destruct (strptime o) eqn:E; [|discriminate]. injection H as <-.
  destruct (strptime_returns_datetime _ _ E) as (?&?&?&?&->). eauto.
Qed.

Lemma decoded_float_inv k d y :
  decoded float k d = Some y ->
  exists f, y = VFloat f /\ decoded_float k d = Some f.
Proof.
  intros H. unfold decoded_float. rewrite H.
  unfold decoded in H. destruct (dict_get k d); [|discriminate].
  destruct (float o) eqn:E; [|discriminate]. injection H as <-.
  destruct (float_returns_float _ _ E) as (?&->). eauto.
Qed.

Lemma decoded_int_inv k d y :
  decoded int k d = Some y ->
  exists z, y = VInt z /\ decoded_int k d = Some z.
Proof.
  intros H. unfold decoded_int. rewrite H.
  unfold decoded in H. destruct (dict_get k d); [|discriminate].
  destruct (int o) eqn:E; [|discriminate]. injection H as <-.
  destruct (int_returns_int _ _ E) as (?&->). eauto.
Qed.

Lemma decode_bar_some sym d r :
  decode_bar sym d = Some r <->
  b_ticker r = sym /\
  decoded_time "datetime" d = Some (b_timestamp r) /\
  decoded_float "open" d = Some (b_open r) /\
  decoded_float "high" d = Some (b_high r) /\
  decoded_float "low" d = Some (b_low r) /\
  decoded_float "close" d = Some (b_close r) /\
  decoded_int "volume" d = Some (b_volume r).
Proof.
  unfold decode_bar. split.
  - destruct (decoded_time _ d); [|discriminate].
    destruct (decoded_float "open" d); [|discriminate].
    destruct (decoded_float "high" d); [|discriminate].
    destruct (decoded_float "low" d); [|discriminate].
    destruct (decoded_float "close" d); [|discriminate].
    destruct (decoded_int _ d); [|discriminate].
    simpl. by intros [= <-].
  - intros (<- & -> & -> & -> & -> & -> & ->). by destruct r.
Qed.

(** Lines 44 to 50 succeed on a record exactly when the symbol can be read
    and the six entries decode; the record then holds the decoded bar. *)
Lemma hourly_body_ok p d d' :
  hourly_body p d = (d', None) <->
  exists sym r,
    meta_symbol p = Ok sym /\ decode_bar sym d = Some r /\
    d' = normalized_bar d r.
Proof.
  unfold hourly_body.
  repeat setoid_rewrite and_then_ok. repeat setoid_rewrite assign_ok.
  repeat setoid_rewrite item_decoded.
  split.
  - intros (d1 & (sym & Hsym & ->) & d2 & (t & Ht & ->) & d3 & (o & Ho & ->)
            & d4 & (h & Hh & ->) & d5 & (l & Hl & ->) & d6 & (c & Hc & ->)
            & v & Hv & ->).
    rewrite !decoded_set_ne in * by discriminate.
    apply decoded_strptime_inv in Ht as (t' & -> & Ht).
    apply decoded_float_inv in Ho as (o' & -> & Ho).
    apply decoded_float_inv in Hh as (h' & -> & Hh).
    apply decoded_float_inv in Hl as (l' & -> & Hl).
    apply decoded_float_inv in Hc as (c' & -> & Hc).
    apply decoded_int_inv in Hv as (v' & -> & Hv).
    exists sym, (mkBarRow sym t' o' h' l' c' v').
    rewrite decode_bar_some. simpl. tauto.
  - intros (sym & r & Hsym & Hr & ->).
    apply decode_bar_some in Hr as (<- & Ht & Ho & Hh & Hl & Hc & Hv).
    apply decoded_time_eq in Ht. apply decoded_float_eq in Ho, Hh, Hl, Hc.
    apply decoded_int_eq in Hv.
    eexists; split; [eauto|].
    eexists; split; [eexists; split; [|reflexivity]|].
    { by rewrite decoded_set_ne by discriminate. }
    eexists; split; [eexists; split; [|reflexivity]|].
    { by rewrite !decoded_set_ne by discriminate. }
    eexists; split; [eexists; split; [|reflexivity]|].
    { by rewrite !decoded_set_ne by discriminate. }
    eexists; split; [eexists; split; [|reflexivity]|].
    { by rewrite !decoded_set_ne by discriminate. }
    eexists; split; [eexists; split; [|reflexivity]|].
    { by rewrite !decoded_set_ne by discriminate. }
    eexists; split; [|reflexivity].
    by rewrite !decoded_set_ne by discriminate.
Qed.

Lemma as_bar_row_normalized d r :
  as_bar_row (VDict (normalized_bar d r)) = Some r.
Proof.
  unfold as_bar_row, normalized_bar, get_time, get_float, get_int.
  dict_simpl. simpl. by destruct r.
Qed.

End Updates.

Section HourlyLoop.

Lemma each_ok step l l' :
  each step l = (l', None) <-> Forall2 (fun v v' => step v = (v', None)) l l'.
Proof.
  revert l'. induction l as [|v l IH]; intros l'; simpl.
  - split; [intros [= <-]; constructor | by inversion 1].
  - destruct (step v) as [v' [e|]] eqn:Ev.
    + split; [discriminate|]. inversion 1; congruence.
    + destruct (each step l) as [l'' e] eqn:El. split.
      * intros [= <- ->]. constructor; [done|]. by apply IH.
      * inversion 1 as [|? v1 ? l1 Hv Hl]; subst.
        apply IH in Hl. congruence.
Qed.

Lemma hourly_step_ok p v v' :
  hourly_step p v = (v', None) <->
  exists d d', v = VDict d /\ v' = VDict d' /\ hourly_body p d = (d', None).
Proof.
  split.
  - destruct v; simpl;
      try (destruct (meta_symbol p); discriminate).
    destruct (hourly_body p d) as [d' e] eqn:E. intros [= <- ->]. eauto.
  - intros (d & d' & -> & -> & H). simpl. by rewrite H.
Qed.

Lemma transform_hourly_loop_ok p p' :
  transform_hourly_loop p = (p', None) <->
  exists values items items',
    subscript p "values" = Ok values /\ iterate values = Ok items /\
    Forall2 (fun v v' => hourly_step p v = (v', None)) items items' /\
    p' = with_values p values items'.
Proof.
  unfold transform_hourly_loop.
  destruct (subscript p "values") as [values|e] eqn:Ev; cycle 1.
  { split; [discriminate|]. by intros (?&?&?&?&_). }
  destruct (iterate values) as [items|e] eqn:Ei; cycle 1.
  { split; [discriminate|]. intros (?&?&?&[= <-]&?&_). congruence. }
  destruct (each _ items) as [items' e] eqn:E. split.
  - intros [= <- ->]. apply each_ok in E. eauto 10.
  - intros (?&?&?&[= <-]&Hi&H&->). apply each_ok in H. congruence.
Qed.

(** The rows a successful run leaves under ["values"], against the
    records it found there. *)
Lemma transform_hourly_loop_rows p p' records :
  subscript p "values" = Ok (VList records) ->
  transform_hourly_loop p = (p', None) ->
  exists sym rows,
    subscript p' "values" = Ok (VList rows) /\
    Forall2 (fun v row =>
               exists d r, v = VDict d /\ meta_symbol p = Ok sym /\
                 decode_bar sym d = Some r /\
                 row = VDict (normalized_bar d r)) records rows /\
    (records = [] \/ meta_symbol p = Ok sym).
Proof.
  intros Hv (values & items & items' & Hv' & Hit & Hall & ->)%transform_hourly_loop_ok.
  rewrite Hv in Hv'. injection Hv' as <-. injection Hit as <-.
  destruct p as [| | | | | | |pd]; try discriminate. simpl.
  rewrite dict_get_set_eq.
  destruct records as [|v0 records].
  - inversion Hall; subst. exists VNone, []. split; [done|]. split; [constructor|by left].
  - inversion Hall as [|? v0' ? l' H0 Hrest]; subst.
    apply hourly_step_ok in H0 as (d0 & d0' & -> & -> & H0).
    apply hourly_body_ok in H0 as (sym & r0 & Hsym & Hr0 & ->).
    exists sym, (VDict (normalized_bar d0 r0) :: l').
    split; [done|]. split; [|by right].
    constructor; [eauto 10|].
    eapply Forall2_impl; [exact Hrest|]. simpl.
    intros v v' (d & d' & -> & -> & H)%hourly_step_ok.
    apply hourly_body_ok in H as (sym' & r & Hsym' & Hr & ->).
    rewrite Hsym in Hsym'. injection Hsym' as <-. eauto 10.
Qed.

End HourlyLoop.

Section BarRows.

Lemma valid_records_step p sym records :
  meta_symbol p = Ok sym ->
  Forall (valid_bar_record sym) records ->
  exists rows,
    Forall2 (fun v v' => hourly_step p v = (v', None)) records rows /\
    Forall2 (bar_row_of sym) records rows.
Proof.
  intros Hsym. induction 1 as [|v records (d & -> & r & Hr) _ (rows & H1 & H2)].
  - exists []. split; constructor.
  - exists (VDict (normalized_bar d r) :: rows). split; constructor; auto.
    + apply hourly_step_ok. do 2 eexists. do 2 (split; [done|]).
      apply hourly_body_ok. eauto.
    + exists d, r. by rewrite as_bar_row_normalized.
Qed.

(** C1. For every valid bar payload (a symbol under the metadata and a
    list of records whose datetime string parses under
    [%Y-%m-%d %H:%M:%S] and whose open, high, low, close and volume
    decode), the loop of [transform_hourly] succeeds and leaves under
    ["values"] exactly one row per record, in the order of the records;
    each row holds the bar of its record: the metadata symbol as ticker,
    the parsed timestamp, the decoded prices and the decoded integer
    volume.  These rows are what [transform_hourly] hands to the loader. *)
Theorem transform_hourly_one_row_per_record p sym records :
  meta_symbol p = Ok sym ->
  subscript p "values" = Ok (VList records) ->
  Forall (valid_bar_record sym) records ->
  exists p' rows,
    transform_hourly_loop p = (p', None) /\
    subscript p' "values" = Ok (VList rows) /\
    length rows = length records /\
    Forall2 (bar_row_of sym) records rows /\
    forall w, transform_hourly p w = hand_over_hourly p' (VList rows) w.
Proof.
  intros Hsym Hv Hvalid.
  destruct (valid_records_step p sym records Hsym Hvalid) as (rows & H1 & H2).
  exists (with_values p (VList records) rows), rows.
  assert (Hloop : transform_hourly_loop p
                  = (with_values p (VList records) rows, None)).
  { apply transform_hourly_loop_ok. by exists (VList records), records, rows. }
  assert (Hsub : subscript (with_values p (VList records) rows) "values"
                 = Ok (VList rows)).
  { destruct p; try discriminate. simpl. by rewrite dict_get_set_eq. }
  split; [done|]. split; [done|].
  split; [symmetry; eapply Forall2_length; eauto|]. split; [done|].
  intros w. unfold transform_hourly, hand_over_hourly. rewrite Hloop.
  unfold mbind. destruct (perf_counter w) as [[t0|e] w1]; [|done].
  destruct (perf_counter w1) as [[t1|e] w2]; [|done].
  destruct (print _ w2) as [[[]|e] w3]; [|done].
  rewrite Hsub. simpl. done.
Qed.

End BarRows.

Lemma transform_hourly_one_row_per_record_witness :
  exists p' rows,
    transform_hourly_loop spy = (p', None) /\
    subscript p' "values" = Ok (VList rows) /\
    length rows = length spy_records /\
    Forall2 (bar_row_of (VStr "SPY")) spy_records rows /\
    forall w, transform_hourly spy w = hand_over_hourly p' (VList rows) w.
Proof.
  apply (transform_hourly_one_row_per_record spy (VStr "SPY") spy_records).
  - reflexivity.
  - reflexivity.
  - repeat constructor. eexists. split; [reflexivity|].
    vm_compute. eauto.
Defined.

Section IndicatorRows.

Lemma collect_ok row l rows :
  collect row l = Ok rows <-> Forall2 (fun v r => row v = Ok r) l rows.
Proof.
  revert rows. induction l as [|v l IH]; intros rows; simpl.
  - split; [intros [= <-]; constructor | by inversion 1].
  - destruct (row v) as [r|e] eqn:Ev; simpl.
    + destruct (collect row l) as [rs|e] eqn:El; simpl; split.
      * intros [= <-]. constructor; [done|]. by apply IH.
      * inversion 1 as [|? r1 ? l1 Hv Hl]; subst.
        apply IH in Hl. congruence.
      * discriminate.
      * inversion 1 as [|? r1 ? l1 Hv Hl]; subst.
        apply IH in Hl. discriminate.
    + split; [discriminate|]. inversion 1; congruence.
Qed.

Lemma decode_indicator_some sym ind d r :
  decode_indicator sym ind d = Some r <->
  i_ticker r = sym /\
  decoded_time "datetime" d = Some (i_timestamp r) /\
  nth_error (keys d) 1 = Some (i_indicator r) /\
  decoded_float ind d = Some (i_value r).
Proof.
  unfold decode_indicator. split.
  - destruct (decoded_time _ d); [|discriminate].
    destruct (nth_error _ 1); [|discriminate].
    destruct (decoded_float ind d); [|discriminate].
    simpl. by intros [= <-].
  - intros (<- & -> & -> & ->). by destruct r.
Qed.

(** Lines 69 to 73 succeed on an element exactly when it is a dictionary
    that stands for an observation; the dictionary built holds it. *)
Lemma technical_row_ok p ind v row :
  technical_row p ind v = Ok row <->
  exists sym d r,
    v = VDict d /\ meta_symbol p = Ok sym /\
    decode_indicator sym ind d = Some r /\ row = VDict (indicator_dict r).
Proof.
  unfold technical_row. split.
  - destruct (meta_symbol p) as [sym|]; [cbn [bind]|discriminate].
    destruct v as [| | | | | | |d]; try discriminate.
    change (subscript (VDict d) "datetime") with (item "datetime" d).
    change (subscript (VDict d) ind) with (item ind d).
    destruct (bind (item "datetime" d) strptime) as [t|] eqn:Et;
      [cbn [bind]|discriminate].
    apply item_decoded in Et.
    apply decoded_strptime_inv in Et as (t' & -> & Et).
    unfold keys_of, list_index. cbn [bind].
    destruct (nth_error (keys d) 1) as [k|] eqn:Ek;
      [cbn [bind]|discriminate].
    destruct (bind (item ind d) float) as [x|] eqn:Ex;
      [cbn [bind]|discriminate].
    apply item_decoded in Ex.
    apply decoded_float_inv in Ex as (f & -> & Ex).
    intros [= <-]. exists sym, d, (mkIndicatorRow sym t' k f).
    rewrite decode_indicator_some. simpl. tauto.
  - intros (sym & d & r & -> & -> & Hr & ->). cbn [bind].
    apply decode_indicator_some in Hr as (<- & Ht & Hk & Hv).
    apply decoded_time_eq, item_decoded in Ht.
    apply decoded_float_eq, item_decoded in Hv.
    change (subscript (VDict d) "datetime") with (item "datetime" d).
    change (subscript (VDict d) ind) with (item ind d).
    rewrite Ht. cbn [bind]. unfold keys_of, list_index. cbn [bind].
    rewrite Hk. cbn [bind]. rewrite Hv. reflexivity.
Qed.

Lemma as_indicator_row_dict r :
  as_indicator_row (VDict (indicator_dict r)) = Some r.
Proof. by destruct r. Qed.

Lemma transform_technical_hand_over p ind rows :
  transform_technical_loop p ind = Ok rows ->
  forall w,
      transform_technical p ind w = hand_over_technical p (VList rows) w.
Proof.
  intros H w. unfold transform_technical, hand_over_technical. rewrite H.
  unfold mbind. by destruct (perf_counter w) as [[t0|e] w1].
Qed.

Lemma transform_technical_raises p ind e :
  transform_technical_loop p ind = Raise e ->
  forall w, exists w',
    transform_technical p ind w = (Raise e, w') /\ trace w' = trace w.
Proof.
  intros H w. unfold transform_technical. rewrite H.
  unfold mbind, perf_counter, lift. simpl. eauto.
Qed.

(** C2. For every valid indicator payload and indicator name, the loop of
    [transform_technical] builds exactly one row per record, in the order
    of the records; each row holds the observation of its record: the
    metadata symbol as ticker, the parsed timestamp, the second key of
    the record as indicator (whatever the indicator name is) and the
    decoded entry at the indicator name as value.  These rows are what
    [transform_technical] hands to the loader. *)
Theorem transform_technical_one_row_per_record p ind sym records :
  meta_symbol p = Ok sym ->
  subscript p "values" = Ok (VList records) ->
  Forall (valid_indicator_record sym ind) records ->
  exists rows,
    transform_technical_loop p ind = Ok rows /\
    length rows = length records /\
    Forall2 (indicator_row_of sym ind) records rows /\
    forall w,
      transform_technical p ind w = hand_over_technical p (VList rows) w.
Proof.
  intros Hsym Hv Hvalid.
  assert (exists rows,
    Forall2 (fun v r => technical_row p ind v = Ok r) records rows /\
    Forall2 (indicator_row_of sym ind) records rows) as (rows & H1 & H2).
  { clear Hv.
    induction Hvalid as [|v records (d & -> & r & Hr) _ (rows & H1 & H2)].
    - exists []. split; constructor.
    - exists (VDict (indicator_dict r) :: rows). split; constructor; auto.
      + apply technical_row_ok. eauto 10.
      + exists d, r. by rewrite as_indicator_row_dict. }
  assert (Hloop : transform_technical_loop p ind = Ok rows).
  { unfold transform_technical_loop. rewrite Hv. simpl. by apply collect_ok. }
  exists rows. split; [done|].
  split; [symmetry; eapply Forall2_length; eauto|]. split; [done|].
  by apply transform_technical_hand_over.
Qed.

Lemma transform_technical_one_row_per_record_witness :
  exists rows,
    transform_technical_loop spy_rsi "rsi" = Ok rows /\
    length rows = length spy_rsi_records /\
    Forall2 (indicator_row_of (VStr "SPY") "rsi") spy_rsi_records rows /\
    forall w,
      transform_technical spy_rsi "rsi" w
      = hand_over_technical spy_rsi (VList rows) w.
Proof.
  apply (transform_technical_one_row_per_record
           spy_rsi "rsi" (VStr "SPY") spy_rsi_records).
  - reflexivity.
  - reflexivity.
  - repeat constructor. eexists. split; [reflexivity|].
    vm_compute. eauto.
Defined.

Lemma second_key_short d :
  (length d < 2)%nat -> second_key (VDict d) = Raise IndexError.
Proof.
  unfold second_key, keys_of, keys, list_index. simpl.
  destruct d as [|? [|? d]]; simpl; auto. lia.
Qed.

Lemma collect_app_raise row before v after rows e :
  collect row before = Ok rows -> row v = Raise e ->
  collect row (before ++ v :: after) = Raise e.
Proof.
  revert rows. induction before as [|u before IH]; intros rows; simpl.
  - intros _ ->. done.
  - destruct (row u); [simpl|discriminate].
    destruct (collect row before) eqn:E; [simpl|discriminate].
    intros _ Hv. by rewrite (IH _ eq_refl Hv).
Qed.

(** C10. [transform_technical] succeeds only on documents whose records
    all have at least two keys.  For every document with a record of
    fewer than two keys: taking the second key of that record raises
    IndexError; the call raises and never reaches the loader; and when the
    symbol, the records before it and its datetime are fine, the
    exception of the call is that IndexError. *)
Theorem transform_technical_needs_two_keys p ind values items d :
  subscript p "values" = Ok values ->
  iterate values = Ok items ->
  In (VDict d) items ->
  (length d < 2)%nat ->
  second_key (VDict d) = Raise IndexError /\
  (exists e,
     transform_technical_loop p ind = Raise e /\
     forall w, exists w',
       transform_technical p ind w = (Raise e, w') /\ trace w' = trace w) /\
  (forall sym before after rows t,
     items = before ++ VDict d :: after ->
     meta_symbol p = Ok sym ->
     collect (technical_row p ind) before = Ok rows ->
     decoded_time "datetime" d = Some t ->
     transform_technical_loop p ind = Raise IndexError).
Proof.
  intros Hv Hit Hin Hlen.
  assert (Hshort : forall row, technical_row p ind (VDict d) <> Ok row).
  { intros row (sym & d' & r & [= <-] & _ & Hr & _)%technical_row_ok.
    apply decode_indicator_some in Hr as (_ & _ & Hk & _).
    unfold keys in Hk. destruct d as [|? [|? d]]; simpl in *; try discriminate.
    lia. }
  split; [by apply second_key_short|]. split.
  - destruct (transform_technical_loop p ind) as [rows|e] eqn:E.
    + exfalso. unfold transform_technical_loop in E.
      rewrite Hv in E. simpl in E. rewrite Hit in E. simpl in E.
      apply collect_ok in E.
      apply list_elem_of_In, list_elem_of_lookup in Hin as [i Hi].
      destruct (Forall2_lookup_l _ _ _ _ _ E Hi) as (row & _ & Hrow).
      by apply Hshort in Hrow.
    + exists e. split; [done|]. by apply transform_technical_raises.
  - intros sym before after rows t -> Hsym Hbefore Ht.
    unfold transform_technical_loop. rewrite Hv. simpl. rewrite Hit. simpl.
    eapply collect_app_raise; [done|].
    unfold technical_row. rewrite Hsym. cbn [bind].
    change (subscript (VDict d) "datetime") with (item "datetime" d).
    apply decoded_time_eq, item_decoded in Ht. rewrite Ht. cbn [bind].
    fold (second_key (VDict d)). by rewrite second_key_short.
Qed.

End IndicatorRows.

Lemma transform_technical_needs_two_keys_witness :
  second_key (VDict [("datetime", VStr "2024-01-01 09:30:00")])
  = Raise IndexError /\
  (exists e,
     transform_technical_loop one_key "rsi" = Raise e /\
     forall w, exists w',
       transform_technical one_key "rsi" w = (Raise e, w') /\
       trace w' = trace w) /\
  (forall sym before after rows t,
     [VDict [("datetime", VStr "2024-01-01 09:30:00")]]
     = before ++ VDict [("datetime", VStr "2024-01-01 09:30:00")] :: after ->
     meta_symbol one_key = Ok sym ->
     collect (technical_row one_key "rsi") before = Ok rows ->
     decoded_time "datetime" [("datetime", VStr "2024-01-01 09:30:00")]
     = Some t ->
     transform_technical_loop one_key "rsi" = Raise IndexError).
Proof.
  apply (transform_technical_needs_two_keys one_key "rsi"
           (VList [VDict [("datetime", VStr "2024-01-01 09:30:00")]])
           [VDict [("datetime", VStr "2024-01-01 09:30:00")]]
           [("datetime", VStr "2024-01-01 09:30:00")]).
  - reflexivity.
  - reflexivity.
  - left. reflexivity.
  - simpl. lia.
Defined.

Section Volume.

(** C9, as stated, fails: the volume ["-5"] decodes to the integer -5,
    and the row holds it. *)
Lemma transform_hourly_negative_volume :
  exists p' rows row r,
    transform_hourly_loop negative_volume = (p', None) /\
    subscript p' "values" = Ok (VList rows) /\
    In row rows /\ as_bar_row row = Some r /\ b_volume r < 0.
Proof.
  do 4 eexists. split; [vm_compute; reflexivity|].
  split; [reflexivity|]. split; [left; reflexivity|].
  split; [vm_compute; reflexivity|]. simpl. lia.
Qed.

(** C9, amended. Every row that [transform_hourly] produces holds an
    integer volume: the integer that [int] decodes from the volume entry
    of its record (so it is negative when the entry denotes a negative
    integer). *)
Theorem transform_hourly_volume_is_decoded p p' rows :
  transform_hourly_loop p = (p', None) ->
  subscript p' "values" = Ok (VList rows) ->
  exists records,
    subscript p "values" = Ok (VList records) /\
    Forall2 (fun v row =>
               exists d r, v = VDict d /\ as_bar_row row = Some r /\
                 decoded_int "volume" d = Some (b_volume r))
      records rows.
Proof.
  intros Hloop Hrows.
  pose proof Hloop as (values & items & items' & Hv & Hit & _ & Hp')
    %transform_hourly_loop_ok.
  destruct values as [| | | | | |records|];
    try (subst p'; destruct p; try discriminate; simpl in *; congruence).
  destruct (transform_hourly_loop_rows _ _ _ Hv Hloop)
    as (sym & rows' & Hrows' & Hall & _).
  rewrite Hrows in Hrows'. injection Hrows' as <-.
  exists records. split; [done|].
  eapply Forall2_impl; [exact Hall|]. simpl.
  intros v row (d & r & -> & _ & Hr & ->).
  exists d, r. rewrite as_bar_row_normalized.
  apply decode_bar_some in Hr. tauto.
Qed.

Lemma transform_hourly_volume_is_decoded_witness :
  exists records,
    subscript negative_volume "values" = Ok (VList records) /\
    Forall2 (fun v row =>
               exists d r, v = VDict d /\ as_bar_row row = Some r /\
                 decoded_int "volume" d = Some (b_volume r))
      records
      [VDict (normalized_bar
                [("datetime", VStr "2024-01-01 09:30:00");
                 ("open", VStr "470.1"); ("high", VStr "471.0");
                 ("low", VStr "469.8"); ("close", VStr "470.5");
                 ("volume", VStr "-5")]
                (mkBarRow (VStr "SPY") (mkDatetime 2024 1 1 9 30 0)
                   (S754_finite false 8270086659479962 (-44))
                   (S754_finite false 8285919626919936 (-44))
                   (S754_finite false 8264809003666637 (-44))
                   (S754_finite false 8277123533897728 (-44))
                   (-5)))].
Proof.
  eapply (transform_hourly_volume_is_decoded negative_volume).
  - vm_compute. reflexivity.
  - vm_compute. reflexivity.
Defined.

End Volume.

Section Failures.

Lemma item_set_ne k k0 v d : k0 <> k -> item k (dict_set k0 v d) = item k d.
Proof. intros. unfold item, subscript. by rewrite dict_get_set_ne. Qed.

(** The exception of lines 44 to 50 is that of the first right-hand side
    that raises, each evaluated on the record as it came. *)
Lemma hourly_failure_first p d :
  hourly_failure p d =
  match meta_symbol p with Raise e => Some e | Ok _ =>
  match bind (item "datetime" d) strptime with Raise e => Some e | Ok _ =>
  match bind (item "open" d) float with Raise e => Some e | Ok _ =>
  match bind (item "high" d) float with Raise e => Some e | Ok _ =>
  match bind (item "low" d) float with Raise e => Some e | Ok _ =>
  match bind (item "close" d) float with Raise e => Some e | Ok _ =>
  match bind (item "volume" d) int with Raise e => Some e | Ok _ => None
  end end end end end end end.
Proof.
  unfold hourly_failure, hourly_body, and_then, assign.
  destruct (meta_symbol p); [|done].
  rewrite !item_set_ne by discriminate.
  destruct (bind (item "datetime" d) strptime); [|done].
  rewrite !item_set_ne by discriminate.
  destruct (bind (item "open" d) float); [|done].
  rewrite !item_set_ne by discriminate.
  destruct (bind (item "high" d) float); [|done].
  rewrite !item_set_ne by discriminate.
  destruct (bind (item "low" d) float); [|done].
  rewrite !item_set_ne by discriminate.
  destruct (bind (item "close" d) float); [|done].
  rewrite !item_set_ne by discriminate.
  by destruct (bind (item "volume" d) int).
Qed.

Lemma strptime_string_raises s e :
  strptime_string s = Raise e -> e = ValueError AtStrptime.
Proof.
  unfold strptime_string.
  destruct (format_regex (chars s)) as [|[t [|]] ?]; try congruence.
  destruct (valid_datetime t); congruence.
Qed.

Lemma float_raises x e : float x = Raise e -> is_cast_failure e = true.
Proof.
  destruct x; simpl; try (intros [= <-]; reflexivity).
  - unfold float_of_int.
    destruct (binary_normalize _ _ _ _ _); simpl; try discriminate.
    by intros [= <-].
  - unfold float_of_int.
    destruct (binary_normalize _ _ _ _ _); simpl; try discriminate.
    by intros [= <-].
  - unfold float_of_string. destruct (sign _) as [neg r].
    destruct (_ || _); [discriminate|].
    destruct (is_word "nan" r); [discriminate|].
    destruct (decimal r) as [[]|]; simpl; [discriminate|].
    by intros [= <-].
Qed.

Lemma int_raises x e : int x = Raise e -> is_cast_failure e = true.
Proof.
  destruct x; simpl; try (intros [= <-]; reflexivity).
  - destruct f; simpl; try discriminate; by intros [= <-].
  - unfold int_of_string. destruct (sign _) as [neg r].
    destruct (digits r) as [[ds [|]]|]; simpl; try discriminate;
      by intros [= <-].
Qed.

Lemma cast_item_raises (conv : obj -> res obj) k d e :
  (forall x e, conv x = Raise e -> is_cast_failure e = true) ->
  In k ["open"; "high"; "low"; "close"; "volume"] ->
  bind (item k d) conv = Raise e -> is_cast_failure e = true.
Proof.
  intros Hconv Hk. rewrite item_conv.
  destruct (dict_get k d); [by apply Hconv|].
  intros [= <-]. simpl in Hk.
  by repeat (destruct Hk as [<-|Hk]; [reflexivity|]).
Qed.

Lemma decoded_is_some (conv : obj -> res obj) k d :
  is_Some (decoded conv k d) <-> exists y, bind (item k d) conv = Ok y.
Proof.
  split.
  - intros [y Hy]. exists y. by apply item_decoded.
  - intros [y Hy]. exists y. by apply item_decoded.
Qed.

Lemma decoded_time_is_some k d :
  is_Some (decoded_time k d) <-> exists y, bind (item k d) strptime = Ok y.
Proof.
  rewrite <-decoded_is_some. split.
  - intros [t Ht]. apply decoded_time_eq in Ht. eauto.
  - intros [y (t & -> & Ht)%decoded_strptime_inv]. eauto.
Qed.

Lemma decoded_float_is_some k d :
  is_Some (decoded_float k d) <-> exists y, bind (item k d) float = Ok y.
Proof.
  rewrite <-decoded_is_some. split.
  - intros [t Ht]. apply decoded_float_eq in Ht. eauto.
  - intros [y (t & -> & Ht)%decoded_float_inv]. eauto.
Qed.

Lemma decoded_int_is_some k d :
  is_Some (decoded_int k d) <-> exists y, bind (item k d) int = Ok y.
Proof.
  rewrite <-decoded_is_some. split.
  - intros [t Ht]. apply decoded_int_eq in Ht. eauto.
  - intros [y (t & -> & Ht)%decoded_int_inv]. eauto.
Qed.

(** C4, as stated, fails: on a record whose datetime is malformed and
    whose open is missing, the exception is that of the datetime, not
    that of a cast, although a field is missing. *)
Lemma hourly_failure_datetime_first :
  ~ fields_ok bad_datetime_no_open /\
  hourly_failure spy bad_datetime_no_open = Some (ValueError AtStrptime) /\
  ~ ((exists e, hourly_failure spy bad_datetime_no_open = Some e /\
                is_cast_failure e = true)
     <-> ~ fields_ok bad_datetime_no_open).
Proof.
  assert (H1 : ~ fields_ok bad_datetime_no_open).
  { intros ([f Hf] & _). vm_compute in Hf. discriminate. }
  assert (H2 : hourly_failure spy bad_datetime_no_open
               = Some (ValueError AtStrptime)) by (vm_compute; reflexivity).
  split; [done|]. split; [done|].
  intros [_ H]. destruct (H H1) as (e & He & Hc).
  rewrite H2 in He. injection He as <-. discriminate.
Qed.

(** C4, amended. For a record with a datetime string, in a document whose
    symbol can be read: normalisation fails with the exception of the
    parse exactly when the string does not parse under
    [%Y-%m-%d %H:%M:%S]; it fails with an exception of the casts (a
    missing entry, or what [float] raises on open, high, low, close and
    [int] on volume) exactly when the string parses and one of the five
    entries is missing or does not decode; it succeeds exactly when the
    string parses and the five entries decode. *)
Theorem hourly_failure_classes p sym d s :
  meta_symbol p = Ok sym ->
  dict_get "datetime" d = Some (VStr s) ->
  ((exists e, hourly_failure p d = Some e /\ is_parse_failure e = true)
   <-> ~ datetime_ok d) /\
  ((exists e, hourly_failure p d = Some e /\ is_cast_failure e = true)
   <-> datetime_ok d /\ ~ fields_ok d) /\
  (hourly_failure p d = None <-> datetime_ok d /\ fields_ok d).
Proof.
  intros Hsym Hdt. rewrite hourly_failure_first, Hsym.
  unfold datetime_ok, fields_ok.
  rewrite decoded_time_is_some, !decoded_float_is_some, decoded_int_is_some.
  destruct (bind (item "datetime" d) strptime) as [t|e] eqn:Et.
  2:{ assert (e = ValueError AtStrptime) as ->.
      { rewrite item_conv, Hdt in Et. simpl in Et.
        destruct (strptime_string s) eqn:Es; [discriminate|].
        apply strptime_string_raises in Es. simpl in Et. congruence. }
      split; [|split].
      - split; [by intros _ [? ?]|]. intros _. eauto.
      - split; [by intros (? & [= <-] & ?)|]. by intros [[? ?] _].
      - split; [done|]. by intros [[? ?] _]. }
  assert (Hdone : forall (P : Prop), ((exists y : obj, Ok t = Ok y) /\ P) <-> P)
    by (intros P; split; [tauto | eauto]).
  assert (Hnot : ~ ~ exists y : obj, Ok t = Ok y) by eauto.
  destruct (bind (item "open" d) float) as [o|e] eqn:Eo.
  2:{ apply cast_item_raises in Eo; [|apply float_raises|simpl; tauto].
      split; [|split].
      - split; [|done]. intros (? & [= <-] & He).
        destruct e as [| |[]|[]|[]| | | | | | | | | | | | |];
          try discriminate.
      - rewrite Hdone. split; [|eauto]. intros _ [[? ?] _]. discriminate.
      - split; [done|]. intros (_ & [? ?] & _). discriminate. }
  destruct (bind (item "high" d) float) as [h|e] eqn:Eh.
  2:{ apply cast_item_raises in Eh; [|apply float_raises|simpl; tauto].
      split; [|split].
      - split; [|done]. intros (? & [= <-] & He).
        destruct e as [| |[]|[]|[]| | | | | | | | | | | | |];
          try discriminate.
      - rewrite Hdone. split; [|eauto]. intros _ (_ & [? ?] & _).
        discriminate.
      - split; [done|]. intros (_ & _ & [? ?] & _). discriminate. }
  destruct (bind (item "low" d) float) as [l|e] eqn:El.
  2:{ apply cast_item_raises in El; [|apply float_raises|simpl; tauto].
      split; [|split].
      - split; [|done]. intros (? & [= <-] & He).
        destruct e as [| |[]|[]|[]| | | | | | | | | | | | |];
          try discriminate.
      - rewrite Hdone. split; [|eauto]. intros _ (_ & _ & [? ?] & _).
        discriminate.
      - split; [done|]. intros (_ & _ & _ & [? ?] & _). discriminate. }
  destruct (bind (item "close" d) float) as [c|e] eqn:Ec.
  2:{ apply cast_item_raises in Ec; [|apply float_raises|simpl; tauto].
      split; [|split].
      - split; [|done]. intros (? & [= <-] & He).
        destruct e as [| |[]|[]|[]| | | | | | | | | | | | |];
          try discriminate.
      - rewrite Hdone. split; [|eauto]. intros _ (_ & _ & _ & [? ?] & _).
        discriminate.
      - split; [done|]. intros (_ & _ & _ & _ & [? ?] & _). discriminate. }
  destruct (bind (item "volume" d) int) as [v|e] eqn:Ev.
  2:{ apply cast_item_raises in Ev; [|apply int_raises|simpl; tauto].
      split; [|split].
      - split; [|done]. intros (? & [= <-] & He).
        destruct e as [| |[]|[]|[]| | | | | | | | | | | | |];
          try discriminate.
      - rewrite Hdone. split; [|eauto]. intros _ (_ & _ & _ & _ & [? ?]).
        discriminate.
      - split; [done|]. intros (_ & _ & _ & _ & _ & [? ?]). discriminate. }
  split; [|split].
  - split; [by intros (? & ? & _)|done].
  - split; [by intros (? & ? & _)|]. intros [_ H]. destruct H.
    repeat split; eauto.
  - split; [|done]. intros _. repeat split; eauto.
Qed.

End Failures.

Lemma hourly_failure_classes_witness :
  ((exists e, hourly_failure spy spy_record = Some e /\
              is_parse_failure e = true)
   <-> ~ datetime_ok spy_record) /\
  ((exists e, hourly_failure spy spy_record = Some e /\
              is_cast_failure e = true)
   <-> datetime_ok spy_record /\ ~ fields_ok spy_record) /\
  (hourly_failure spy spy_record = None
   <-> datetime_ok spy_record /\ fields_ok spy_record).
Proof.
  apply (hourly_failure_classes spy (VStr "SPY") spy_record
           "2024-01-01 09:30:00").
  - reflexivity.
  - reflexivity.
Defined.

Section Sessions.

Lemma lookup_snoc {A} (l : list A) (x : A) : (l ++ [x]) !! length l = Some x.
Proof. by apply list_lookup_middle. Qed.

Lemma insert_snoc {A} (l : list A) (x y : A) :
  <[length l := y]> (l ++ [x]) = l ++ [y].
Proof.
  rewrite insert_app_r_alt by lia. by rewrite Nat.sub_diag.
Qed.

Lemma table_absent schema name db :
  Db.table_exists name db = false -> Db.find_table schema name db = None.
Proof.
  unfold Db.table_exists, Db.find_table, Db.is_table.
  induction db as [|t db IH]; simpl; [done|].
  intros [Ht Hdb]%orb_false_elim. rewrite Ht, andb_false_r. auto.
Qed.

Context (w : world).

Let c := length (conns w).
Let k := length (cursors w).

Lemma log_session e tr tk srv view fl rs kc cc :
  log e (session w tr tk srv view fl rs kc cc)
  = (Ok tt, session w (tr ++ [e]) tk srv view fl rs kc cc).
Proof. unfold log, session. simpl. by rewrite <-app_assoc. Qed.

Lemma perf_counter_session tr tk srv view fl rs kc cc :
  perf_counter (session w tr tk srv view fl rs kc cc)
  = (Ok (perf (env w) tk), session w tr (S tk) srv view fl rs kc cc).
Proof. reflexivity. Qed.

Lemma run_session q tr tk srv view rs :
  run k q (session w tr tk srv view false rs false false)
  = match answer (env w) q (view_of (mkConnection view false false) srv) with
    | Ok (db', rs') =>
        (Ok tt, session w tr tk srv (Some db') false rs' false false)
    | Raise e =>
        (Raise e,
         session w tr tk srv
           (Some (view_of (mkConnection view false false) srv)) true rs
           false false)
    end.
Proof.
  unfold run, session, k. simpl. rewrite lookup_snoc. simpl.
  rewrite lookup_snoc. simpl.
  destruct (answer _ _ _) as [[db' rs']|e]; unfold set_cursors, set_conns;
    simpl; by rewrite ?insert_snoc.
Qed.

Lemma execute_session q tr tk srv view rs :
  execute k q (session w tr tk srv view false rs false false)
  = match answer (env w) q (view_of (mkConnection view false false) srv) with
    | Ok (db', rs') =>
        (Ok tt,
         session w (tr ++ [EExecute k q]) tk srv (Some db') false rs'
           false false)
    | Raise e =>
        (Raise e,
         session w (tr ++ [EExecute k q]) tk srv
           (Some (view_of (mkConnection view false false) srv)) true rs
           false false)
    end.
Proof.
  unfold execute, mbind. rewrite log_session, run_session.
  by destruct (answer _ _ _) as [[db' rs']|e].
Qed.

Lemma fetchone_session r rest tr tk srv view fl :
  fetchone k (session w tr tk srv view fl (Some (r :: rest)) false false)
  = (Ok (Some r),
     session w (tr ++ [EFetchone k]) tk srv view fl (Some rest) false false).
Proof.
  unfold fetchone, mbind. rewrite log_session.
  unfold session, k. simpl. rewrite lookup_snoc. simpl.
  unfold set_cursors. simpl. by rewrite insert_snoc.
Qed.

(** The table routine never fails in a healthy session: it creates the
    table only when no table of that name is listed. *)
Lemma ensure_table_session table cols pk tr tk srv view rs :
  let db := view_of (mkConnection view false false) srv in
  let created := negb (Db.table_exists table db) in
  ensure_table table cols pk k
    (session w tr tk srv view false rs false false)
  = (Ok tt,
     session w
       (tr ++ [EExecute k (Db.SelectTableExists table); EFetchone k]
           ++ (if created then [EExecute k (Db.CreateTable table cols pk)]
               else []))
       tk srv (Some (ensured (current (env w)) table cols pk db)) false
       (if created then None else Some []) false false).
Proof.
  intros db created. unfold ensure_table, mbind.
  rewrite execute_session. simpl. fold db.
  rewrite fetchone_session. simpl. unfold ensured. subst created.
  destruct (Db.table_exists table db) eqn:Ex; simpl.
  - by rewrite <-app_assoc.
  - rewrite execute_session. simpl. unfold Db.create_table.
    rewrite table_absent by done. simpl. by rewrite <-!app_assoc.
Qed.

Lemma insert_rows_session table rows tr tk srv db rs :
  match insert_rows (env w) table rows db with
  | Ok db' =>
      exists rs',
        for_each rows (fun cells => run k (Db.InsertValues table cells))
          (session w tr tk srv (Some db) false rs false false)
        = (Ok tt, session w tr tk srv (Some db') false rs' false false)
  | Raise e =>
      exists view' fl' rs',
        for_each rows (fun cells => run k (Db.InsertValues table cells))
          (session w tr tk srv (Some db) false rs false false)
        = (Raise e, session w tr tk srv view' fl' rs' false false)
  end.
Proof.
  revert db rs. induction rows as [|cells rows IH]; intros db rs; simpl.
  - eauto.
  - unfold mbind. rewrite run_session. simpl.
    destruct (Db.insert_row _ _ _ _ _) as [db1|e]; simpl; [|eauto].
    apply IH.
Qed.

Lemma execute_page_session table params page tr tk srv db rs :
  match insert_page (env w) table params page db with
  | Ok db' =>
      exists rs',
        execute_page k table params page
          (session w tr tk srv (Some db) false rs false false)
        = (Ok tt, session w tr tk srv (Some db') false rs' false false)
  | Raise e =>
      exists view' fl' rs',
        execute_page k table params page
          (session w tr tk srv (Some db) false rs false false)
        = (Raise e, session w tr tk srv view' fl' rs' false false)
  end.
Proof.
  unfold insert_page, execute_page, mbind, lift.
  destruct (mogrify_all params page) as [bs|e]; simpl; [|eauto].
  destruct (bound bs) as [rows|].
  - apply insert_rows_session.
  - rewrite run_session. simpl. eauto.
Qed.

Lemma insert_pages_session table params pages tr tk srv db rs :
  match insert_pages (env w) table params pages db with
  | Ok db' =>
      exists rs',
        for_each pages (execute_page k table params)
          (session w tr tk srv (Some db) false rs false false)
        = (Ok tt, session w tr tk srv (Some db') false rs' false false)
  | Raise e =>
      exists view' fl' rs',
        for_each pages (execute_page k table params)
          (session w tr tk srv (Some db) false rs false false)
        = (Raise e, session w tr tk srv view' fl' rs' false false)
  end.
Proof.
  revert db rs. induction pages as [|page pages IH]; intros db rs; simpl.
  - eauto.
  - unfold mbind.
    pose proof (execute_page_session table params page tr tk srv db rs) as H.
    destruct (insert_page _ _ _ _ _) as [db1|e]; simpl.
    + destruct H as [rs1 ->]. apply IH.
    + destruct H as (view' & fl' & rs' & ->). eauto.
Qed.

Lemma execute_batch_session table params data tr tk srv db rs :
  match insert_batch (env w) table params data db with
  | Ok db' =>
      exists rs',
        execute_batch k table params data
          (session w tr tk srv (Some db) false rs false false)
        = (Ok tt,
           session w (tr ++ [EExecuteBatch k table params data]) tk srv
             (Some db') false rs' false false)
  | Raise e =>
      exists view' fl' rs',
        execute_batch k table params data
          (session w tr tk srv (Some db) false rs false false)
        = (Raise e,
           session w (tr ++ [EExecuteBatch k table params data]) tk srv
             view' fl' rs' false false)
  end.
Proof.
  unfold insert_batch, execute_batch, mbind. rewrite log_session.
  unfold lift. destruct (iterate data) as [items|e]; simpl; [|eauto].
  apply insert_pages_session.
Qed.

Lemma commit_session tr tk srv db rs :
  commit c (session w tr tk srv (Some db) false rs false false)
  = (Ok tt, session w (tr ++ [ECommit c]) tk db None false rs false false).
Proof.
  unfold commit, mbind. rewrite log_session.
  unfold session, c. simpl. rewrite lookup_snoc. simpl.
  unfold set_server, set_conns. simpl. by rewrite insert_snoc.
Qed.

Lemma cursor_close_session tr tk srv view fl rs cc :
  cursor_close k (session w tr tk srv view fl rs false cc)
  = (Ok tt,
     session w (tr ++ [ECursorClose k]) tk srv view fl None true cc).
Proof.
  unfold cursor_close, mbind. rewrite log_session.
  unfold session, k. simpl. rewrite lookup_snoc. simpl.
  unfold set_cursors. simpl. by rewrite insert_snoc.
Qed.

Lemma conn_close_session tr tk srv view fl rs kc :
  conn_close c (session w tr tk srv view fl rs kc false)
  = (Ok tt, session w (tr ++ [EConnClose c]) tk srv None false rs kc true).
Proof.
  unfold conn_close, mbind. rewrite log_session.
  unfold session, c. simpl. rewrite lookup_snoc. simpl.
  unfold set_conns. simpl. by rewrite insert_snoc.
Qed.

End Sessions.

Section Loaders.

Lemma create_hourly_table_eq :
  create_hourly_table
  = ensure_table "hourly_data" hourly_columns ["ticker"; "datetime"].
Proof. reflexivity. Qed.

Lemma create_technical_table_eq :
  create_technical_table
  = ensure_table "technical_data" technical_columns
      ["ticker"; "datetime"; "indicator"].
Proof. reflexivity. Qed.

Lemma load_hourly_eq :
  load_hourly
  = load "hourly_data" hourly_columns ["ticker"; "datetime"] hourly_params.
Proof. reflexivity. Qed.

Lemma load_technical_eq :
  load_technical
  = load "technical_data" technical_columns
      ["ticker"; "datetime"; "indicator"] technical_params.
Proof. reflexivity. Qed.

Lemma open_session w :
  accepting (env w) (length (conns w)) = true ->
  (let* time_start := perf_counter in
   let* conn := connect in
   let* curr := cursor_of conn in
   ret (time_start, conn, curr)) w
  = (Ok (perf (env w) (ticks w), length (conns w), length (cursors w)),
     session w [EConnect (length (conns w));
                ECursor (length (conns w)) (length (cursors w))]
       (S (ticks w)) (server w) None false None false false).
Proof.
  intros Hacc. unfold mbind, perf_counter, connect, cursor_of, ret. simpl.
  rewrite Hacc. unfold set_conns. simpl. rewrite lookup_snoc. simpl.
  unfold set_cursors, session. simpl. by rewrite <-app_assoc.
Qed.

(** A loader, step by step: what it returns and the world it leaves. *)
Lemma load_outcome table cols pk params data w :
  let c := length (conns w) in
  let k := length (cursors w) in
  let created := negb (Db.table_exists table (server w)) in
  let tr := load_prefix c k table cols pk created
            ++ [EExecuteBatch k table params data] in
  if accepting (env w) c then
    match insert_batch (env w) table params data
            (ensured (current (env w)) table cols pk (server w)) with
    | Ok db =>
        load table cols pk params data w
        = (Ok tt,
           session w
             (tr ++ load_suffix c k
                      (perf (env w) (S (ticks w)) - perf (env w) (ticks w)))
             (S (S (ticks w))) db None false None true true)
    | Raise e =>
        exists view fl rs,
          load table cols pk params data w
          = (Raise e,
             session w tr (S (ticks w)) (server w) view fl rs false false)
    end
  else
    load table cols pk params data w
    = (Raise OperationalError,
       mkWorld (env w) (trace w ++ [EConnect c]) (S (ticks w)) (requests w)
         (server w) (conns w) (cursors w)).
Proof.
  intros c k created tr.
  destruct (accepting (env w) c) eqn:Hacc.
  - pose proof (open_session w Hacc) as Hopen.
    unfold mbind, ret in Hopen.
    unfold load, mbind.
    destruct (perf_counter w) as [[t0|?] w1]; [|discriminate].
    destruct (connect w1) as [[c'|?] w2]; [|discriminate].
    destruct (cursor_of c' w2) as [[k'|?] w3]; [|discriminate].
    injection Hopen as -> -> -> ->.
    rewrite ensure_table_session.
    change (view_of (mkConnection None false false) (server w))
      with (server w).
    fold created. cbv zeta.
    pose proof (execute_batch_session w table params data
      ([EConnect c; ECursor c k]
       ++ [EExecute k (Db.SelectTableExists table); EFetchone k]
       ++ (if created then [EExecute k (Db.CreateTable table cols pk)]
           else []))
      (S (ticks w)) (server w)
      (ensured (current (env w)) table cols pk (server w))
      (if created then None else Some [])) as Hbatch.
    subst c k. destruct (insert_batch _ _ _ _ _) as [db|e].
    + destruct Hbatch as [rs' ->].
      rewrite commit_session, cursor_close_session, conn_close_session.
      rewrite perf_counter_session. unfold print. rewrite log_session.
      subst tr. unfold load_prefix, load_suffix.
      by rewrite <-!app_assoc.
    + destruct Hbatch as (view' & fl' & rs' & ->).
      exists view', fl', rs'. subst tr. unfold load_prefix.
      by rewrite <-!app_assoc.
  - unfold load, mbind, perf_counter, connect. simpl.
    subst c. by rewrite Hacc.
Qed.

End Loaders.

Section Release.

Lemma load_contract table cols pk params :
  loader_contract (load table cols pk params) table cols pk params.
Proof.
  intros data w c k.
  pose proof (load_outcome table cols pk params data w) as H.
  cbv zeta in H. fold c k in H.
  destruct (accepting (env w) c).
  - destruct (insert_batch _ _ _ _ _) as [db|e] eqn:Eb.
    + rewrite H. eexists _, _, db. simpl.
      rewrite <-!app_assoc. split; [reflexivity|]. done.
    + destruct H as (view & fl & rs & ->). simpl.
      split; [done|]. split.
      * eexists. split; [reflexivity|].
        unfold load_prefix. by destruct (negb _).
      * subst c k. rewrite !lookup_snoc. split; by intros ? [= <-].
  - rewrite H. simpl. split; [done|]. split.
    + by exists [EConnect c].
    + subst c k. split; intros ? Hl; apply lookup_lt_Some in Hl; lia.
Qed.

(** C7, as stated, fails: when the batch violates the primary key, the
    loader raises with its connection and its cursor open, and has made
    no close call. *)
Lemma load_hourly_leaves_connection_open :
  exists w' cn cu,
    load_hourly duplicate_rows sample_world
    = (Raise (UniqueViolation "hourly_data"), w') /\
    conns w' !! 0%nat = Some cn /\ conn_closed cn = false /\
    cursors w' !! 0%nat = Some cu /\ cur_closed cu = false /\
    ~ In (EConnClose 0) (trace w') /\ ~ In (ECursorClose 0) (trace w').
Proof.
  do 3 eexists. split; [vm_compute; reflexivity|].
  split; [reflexivity|]. split; [reflexivity|].
  split; [reflexivity|]. split; [reflexivity|].
  split; intros H; simpl in H; intuition discriminate.
Qed.

(** C7, amended. For every row batch, [load_hourly] and [load_technical]
    open a connection, ensure the schema, perform one batched insert of
    all rows in a single transaction, commit, and close the cursor and
    the connection, when every step succeeds.  When a step fails the
    exception leaves the call at once: nothing is committed, and the call
    closes neither the cursor nor the connection. *)
Theorem loaders_release_on_success :
  loader_contract load_hourly "hourly_data" hourly_columns
    ["ticker"; "datetime"] hourly_params /\
  loader_contract load_technical "technical_data" technical_columns
    ["ticker"; "datetime"; "indicator"] technical_params.
Proof.
  rewrite load_hourly_eq, load_technical_eq.
  split; apply load_contract.
Qed.

End Release.

Section Schema.

Lemma log_usable e w k db rs :
  usable w k db rs -> usable (snd (log e w)) k db rs.
Proof. done. Qed.

Lemma run_usable k q w db rs :
  usable w k db rs ->
  match answer (env w) q db with
  | Ok (db', rs') =>
      exists w',
        run k q w = (Ok tt, w') /\ usable w' k db' rs' /\
        env w' = env w /\ trace w' = trace w /\ server w' = server w
  | Raise e => True
  end.
Proof.
  intros (c & view & Hk & Hc & Hv).
  destruct (answer (env w) q db) as [[db' rs']|e] eqn:Ea; [|done].
  unfold run. rewrite Hk. simpl. rewrite Hc. simpl. rewrite Hv, Ea.
  eexists. split; [reflexivity|]. split; [|done].
  exists c, (Some db'). unfold set_cursors, set_conns. simpl.
  split; [|split; [|done]].
  - apply list_lookup_insert_eq. by eapply lookup_lt_Some.
  - apply list_lookup_insert_eq. by eapply lookup_lt_Some.
Qed.

Lemma execute_usable k q w db rs :
  usable w k db rs ->
  match answer (env w) q db with
  | Ok (db', rs') =>
      exists w',
        execute k q w = (Ok tt, w') /\ usable w' k db' rs' /\
        env w' = env w /\ trace w' = trace w ++ [EExecute k q] /\
        server w' = server w
  | Raise e => True
  end.
Proof.
  intros H. apply (log_usable (EExecute k q)) in H.
  apply (run_usable k q) in H. simpl in H.
  destruct (answer (env w) q db) as [[db' rs']|e]; [|done].
  destruct H as (w' & Hrun & Hu & He & Ht & Hs).
  exists w'. unfold execute, mbind. simpl. by rewrite Hrun.
Qed.

Lemma fetchone_usable k w db r rest :
  usable w k db (Some (r :: rest)) ->
  exists w',
    fetchone k w = (Ok (Some r), w') /\ usable w' k db (Some rest) /\
    env w' = env w /\ trace w' = trace w ++ [EFetchone k] /\
    server w' = server w.
Proof.
  intros (c & view & Hk & Hc & Hv).
  unfold fetchone, mbind. simpl. rewrite Hk. simpl.
  eexists. split; [reflexivity|]. split; [|done].
  exists c, view. unfold set_cursors. simpl. split; [|done].
  apply list_lookup_insert_eq. by eapply lookup_lt_Some.
Qed.

Lemma table_exists_ensured schema table cols pk db :
  Db.table_exists table (ensured schema table cols pk db) = true.
Proof.
  unfold ensured. destruct (Db.table_exists table db) eqn:E; [done|].
  unfold Db.table_exists. rewrite existsb_app. simpl.
  by rewrite String.eqb_refl, orb_true_r.
Qed.

Lemma ensure_table_usable table cols pk k w db rs :
  usable w k db rs ->
  exists w' rs',
    ensure_table table cols pk k w = (Ok tt, w') /\
    usable w' k (ensured (current (env w)) table cols pk db) rs' /\
    env w' = env w /\
    trace w' = trace w ++ [EExecute k (Db.SelectTableExists table);
                           EFetchone k]
                       ++ (if Db.table_exists table db then []
                           else [EExecute k (Db.CreateTable table cols pk)])
    /\ server w' = server w.
Proof.
  intros H.
  apply (execute_usable k (Db.SelectTableExists table)) in H.
  simpl in H. destruct H as (w1 & H1 & Hu1 & He1 & Ht1 & Hs1).
  apply fetchone_usable in Hu1 as (w2 & H2 & Hu2 & He2 & Ht2 & Hs2).
  unfold ensure_table, mbind. rewrite H1, H2. simpl. unfold ensured.
  destruct (Db.table_exists table db) eqn:Ex; simpl.
  - exists w2, (Some []). split; [done|]. split; [done|].
    rewrite Ht2, Ht1, <-app_assoc. split; [congruence|].
    split; [done|congruence].
  - apply (execute_usable k (Db.CreateTable table cols pk)) in Hu2.
    simpl in Hu2. unfold Db.create_table in Hu2.
    rewrite table_absent in Hu2 by done. simpl in Hu2.
    destruct Hu2 as (w3 & H3 & Hu3 & He3 & Ht3 & Hs3).
    exists w3, None. rewrite H3. split; [done|].
    split; [by rewrite <-He1, <-He2|].
    rewrite Ht3, Ht2, Ht1, <-!app_assoc. split; [congruence|].
    split; [done|congruence].
Qed.

Lemma ensure_table_twice table cols pk w curr db rs :
  usable w curr db rs ->
  ensured_twice (ensure_table table cols pk) table cols pk w curr db.
Proof.
  intros H.
  destruct (ensure_table_usable table cols pk curr w db rs H)
    as (w1 & rs1 & H1 & Hu1 & He1 & Ht1 & Hs1).
  destruct (ensure_table_usable table cols pk curr w1 _ rs1 Hu1)
    as (w2 & rs2 & H2 & Hu2 & He2 & Ht2 & Hs2).
  rewrite He1 in Hu2.
  rewrite table_exists_ensured in Ht2.
  assert (Hidem : ensured (current (env w)) table cols pk
                    (ensured (current (env w)) table cols pk db)
                  = ensured (current (env w)) table cols pk db).
  { unfold ensured at 1. by rewrite table_exists_ensured. }
  rewrite Hidem in Hu2.
  exists w1, w2, rs1, rs2. do 4 (split; [done|]).
  split; [unfold ensured; by destruct (Db.table_exists table db)|].
  split; [by rewrite Ht2, app_nil_r|]. split; congruence.
Qed.

(** C6. [create_hourly_table] and [create_technical_table] are
    idempotent: from any database state, seen through a cursor that can
    be used, calling the routine twice in a row raises no error; the
    first call adds the table only when no table of that name is listed
    and leaves the tables that exist as they are; the second call finds
    the table, creates nothing, and leaves the schema that the first call
    left. *)
Theorem create_table_idempotent w curr db rs :
  usable w curr db rs ->
  ensured_twice create_hourly_table "hourly_data" hourly_columns
    ["ticker"; "datetime"] w curr db /\
  ensured_twice create_technical_table "technical_data" technical_columns
    ["ticker"; "datetime"; "indicator"] w curr db.
Proof.
  intros H. rewrite create_hourly_table_eq, create_technical_table_eq.
  split; by eapply ensure_table_twice.
Qed.

End Schema.

Lemma create_table_idempotent_witness :
  ensured_twice create_hourly_table "hourly_data" hourly_columns
    ["ticker"; "datetime"] sample_session 0 [] /\
  ensured_twice create_technical_table "technical_data" technical_columns
    ["ticker"; "datetime"; "indicator"] sample_session 0 [].
Proof.
  apply (create_table_idempotent sample_session 0 [] None).
  exists 0%nat, None. repeat split.
Defined.

Section EmptyValues.

Lemma rows_ensured schema table cols pk db :
  flat_map Db.rows (ensured schema table cols pk db) = flat_map Db.rows db.
Proof.
  unfold ensured. destruct (Db.table_exists table db); [done|].
  rewrite flat_map_app. simpl. by rewrite app_nil_r.
Qed.

Lemma load_nothing table cols pk params data w :
  iterate data = Ok [] ->
  accepting (env w) (length (conns w)) = true ->
  exists w',
    load table cols pk params data w = (Ok tt, w') /\
    server w' = ensured (current (env w)) table cols pk (server w).
Proof.
  intros Hit Hacc.
  pose proof (load_outcome table cols pk params data w) as H.
  cbv zeta in H. rewrite Hacc in H.
  unfold insert_batch in H. rewrite Hit in H. simpl in H.
  eexists. split; [exact H|done].
Qed.

Lemma transform_hourly_loop_empty p values :
  subscript p "values" = Ok values -> iterate values = Ok [] ->
  exists p' values',
    transform_hourly_loop p = (p', None) /\
    subscript p' "values" = Ok values' /\ iterate values' = Ok [].
Proof.
  intros Hv Hit. unfold transform_hourly_loop. rewrite Hv, Hit. simpl.
  destruct p as [| | | | | | |d]; try discriminate.
  destruct values as [| | | | | |l|]; try by (eexists _, _; eauto).
  injection Hit as ->. exists (VDict (dict_set "values" (VList []) d)).
  exists (VList []). simpl. by rewrite dict_get_set_eq.
Qed.

(** C5. For every payload whose values sequence is empty, both
    normalisers produce an empty row sequence and raise nothing; the
    loader that they then call, on a database that accepts the
    connection, raises nothing and inserts no row: what is committed
    afterwards is what was before, with the table added if it was not
    listed, and holds the same rows. *)
Theorem empty_values_no_rows p values ind w :
  subscript p "values" = Ok values ->
  iterate values = Ok [] ->
  accepting (env w) (length (conns w)) = true ->
  (exists p' values',
     transform_hourly_loop p = (p', None) /\
     subscript p' "values" = Ok values' /\ iterate values' = Ok []) /\
  transform_technical_loop p ind = Ok [] /\
  (exists p' w',
     transform_hourly p w = (Ok p', w') /\
     server w' = ensured (current (env w)) "hourly_data" hourly_columns
                   ["ticker"; "datetime"] (server w) /\
     flat_map Db.rows (server w') = flat_map Db.rows (server w)) /\
  (exists w',
     transform_technical p ind w = (Ok p, w') /\
     server w' = ensured (current (env w)) "technical_data"
                   technical_columns ["ticker"; "datetime"; "indicator"]
                   (server w) /\
     flat_map Db.rows (server w') = flat_map Db.rows (server w)).
Proof.
  intros Hv Hit Hacc.
  destruct (transform_hourly_loop_empty p values Hv Hit)
    as (p' & values' & Hloop & Hv' & Hit').
  assert (Htech : transform_technical_loop p ind = Ok []).
  { unfold transform_technical_loop. by rewrite Hv; simpl; rewrite Hit. }
  split; [eauto|]. split; [done|]. split.
  - unfold transform_hourly. rewrite Hloop. unfold mbind. simpl.
    rewrite Hv'. simpl. rewrite load_hourly_eq.
    match goal with |- context [load _ _ _ _ _ ?w2] =>
      destruct (load_nothing "hourly_data" hourly_columns
                  ["ticker"; "datetime"] hourly_params values' w2 Hit' Hacc)
        as (w' & -> & Hs)
    end.
    simpl in Hs. exists p', w'. split; [done|]. split; [done|].
    by rewrite Hs, rows_ensured.
  - unfold transform_technical. rewrite Htech. unfold mbind. simpl.
    rewrite load_technical_eq.
    match goal with |- context [load _ _ _ _ _ ?w2] =>
      destruct (load_nothing "technical_data" technical_columns
                  ["ticker"; "datetime"; "indicator"] technical_params
                  (VList []) w2 eq_refl Hacc)
        as (w' & -> & Hs)
    end.
    simpl in Hs. exists w'. split; [done|]. split; [done|].
    by rewrite Hs, rows_ensured.
Qed.

End EmptyValues.

Lemma empty_values_no_rows_witness :
  (exists p' values',
     transform_hourly_loop no_values = (p', None) /\
     subscript p' "values" = Ok values' /\ iterate values' = Ok []) /\
  transform_technical_loop no_values "rsi" = Ok [] /\
  (exists p' w',
     transform_hourly no_values sample_world = (Ok p', w') /\
     server w' = ensured (current (env sample_world)) "hourly_data"
                   hourly_columns ["ticker"; "datetime"]
                   (server sample_world) /\
     flat_map Db.rows (server w') = flat_map Db.rows (server sample_world))
  /\
  (exists w',
     transform_technical no_values "rsi" sample_world = (Ok no_values, w') /\
     server w' = ensured (current (env sample_world)) "technical_data"
                   technical_columns ["ticker"; "datetime"; "indicator"]
                   (server sample_world) /\
     flat_map Db.rows (server w') = flat_map Db.rows (server sample_world)).
Proof.
  apply (empty_values_no_rows no_values (VList []) "rsi" sample_world).
  - reflexivity.
  - reflexivity.
  - reflexivity.
Defined.

Section Stages.

Lemma stages_app tr1 tr2 : stages (tr1 ++ tr2) = stages tr1 ++ stages tr2.
Proof. apply omap_app. Qed.

Lemma goes_through_ret {A} (a : A) : goes_through (ret a) [].
Proof. intros w. exists []. simpl. by rewrite app_nil_r. Qed.

Lemma goes_through_lift {A} (r : res A) : goes_through (lift r) [].
Proof.
  intros w. exists []. simpl. rewrite app_nil_r. split; [done|].
  destruct r; [done|apply prefix_nil].
Qed.

Lemma goes_through_raise {A} e : goes_through (@raise A e) [].
Proof. intros w. exists []. simpl. by rewrite app_nil_r. Qed.

Lemma goes_through_bind {A B} (m : M A) (k : A -> M B) f1 f2 :
  goes_through m f1 -> (forall a, goes_through (k a) f2) ->
  goes_through (mbind m k) (f1 ++ f2).
Proof.
  intros Hm Hk w. unfold mbind.
  destruct (Hm w) as (tr1 & Ht1 & Hr1).
  destruct (m w) as [[a|e] w1]; simpl in *.
  - destruct (Hk a w1) as (tr2 & Ht2 & Hr2).
    exists (tr1 ++ tr2). rewrite Ht2, Ht1, <-app_assoc. split; [done|].
    rewrite stages_app, Hr1.
    destruct (fst (k a w1)); [by rewrite Hr2|by apply prefix_app].
  - exists tr1. split; [done|]. by apply prefix_app_r.
Qed.

Lemma goes_through_for_each {A} (l : list A) (body : A -> M unit) f :
  (forall x, goes_through (body x) (f x)) ->
  goes_through (for_each l body) (flat_map f l).
Proof.
  intros Hbody. induction l as [|x l IH]; simpl.
  - apply goes_through_ret.
  - apply goes_through_bind; auto.
Qed.

Lemma goes_through_log ev :
  goes_through (log ev) (stages [ev]).
Proof. intros w. by exists [ev]. Qed.

Lemma goes_through_perf_counter : goes_through perf_counter [].
Proof. intros w. exists []. simpl. by rewrite app_nil_r. Qed.

Lemma goes_through_extract url : goes_through (extract url) [Fetch url].
Proof.
  unfold extract.
  change [Fetch url] with ([] ++ ([Fetch url] ++ []) ++ [] ++ [] ++ [] ++ [] ++ []).
  apply goes_through_bind; [apply goes_through_perf_counter|]. intros t0.
  apply goes_through_bind.
  { unfold requests_get.
    apply goes_through_bind; [apply (goes_through_log (EGet url))|].
    intros _ w. exists []. simpl. rewrite app_nil_r.
    destruct (peer _ _ _); simpl; split; try done; apply prefix_nil. }
  intros r.
  apply goes_through_bind;
    [apply (goes_through_log (EPrint (StatusCode _)))|]. intros _.
  apply goes_through_bind.
  { unfold json. destruct (snd r);
      [apply goes_through_ret|apply goes_through_raise]. }
  intros d.
  apply goes_through_bind; [apply goes_through_perf_counter|]. intros t1.
  apply goes_through_bind;
    [apply (goes_through_log (EPrint (ExtractTime _)))|]. intros _.
  apply goes_through_ret.
Qed.

Lemma goes_through_load table cols pk params data :
  goes_through (load table cols pk params data) [Stored table].
Proof.
  intros w.
  pose proof (load_outcome table cols pk params data w) as H.
  cbv zeta in H.
  destruct (accepting (env w) _).
  - destruct (insert_batch _ _ _ _ _) as [db|e].
    + rewrite H. simpl. eexists. split; [reflexivity|].
      unfold load_prefix. rewrite ?stages_app.
      by destruct (negb _).
    + destruct H as (view & fl & rs & ->). simpl.
      eexists. split; [reflexivity|].
      unfold load_prefix. rewrite ?stages_app.
      by destruct (negb _).
  - rewrite H. simpl. eexists. split; [reflexivity|]. apply prefix_nil.
Qed.

Lemma goes_through_transform_hourly p :
  goes_through (transform_hourly p) [Normalized; Stored "hourly_data"].
Proof.
  unfold transform_hourly.
  change [Normalized; Stored "hourly_data"]
    with ([] ++ [Normalized; Stored "hourly_data"]).
  apply goes_through_bind; [apply goes_through_perf_counter|]. intros t0.
  destruct (transform_hourly_loop p) as [p' [e|]].
  { intros w. exists []. simpl. rewrite app_nil_r. split; [done|].
    apply prefix_nil. }
  change [Normalized; Stored "hourly_data"]
    with ([] ++ [Normalized] ++ [] ++ [Stored "hourly_data"] ++ []).
  apply goes_through_bind; [apply goes_through_perf_counter|]. intros t1.
  apply goes_through_bind;
    [apply (goes_through_log (EPrint (TransformTime _)))|]. intros _.
  apply goes_through_bind; [apply goes_through_lift|]. intros values.
  apply goes_through_bind;
    [rewrite load_hourly_eq; apply goes_through_load|]. intros _.
  apply goes_through_ret.
Qed.

Lemma goes_through_transform_technical p ind :
  goes_through (transform_technical p ind)
    [Normalized; Stored "technical_data"].
Proof.
  unfold transform_technical.
  change [Normalized; Stored "technical_data"]
    with ([] ++ [] ++ [] ++ [Normalized] ++ [Stored "technical_data"] ++ []).
  apply goes_through_bind; [apply goes_through_perf_counter|]. intros t0.
  apply goes_through_bind; [apply goes_through_lift|]. intros rows.
  apply goes_through_bind; [apply goes_through_perf_counter|]. intros t1.
  apply goes_through_bind;
    [apply (goes_through_log (EPrint (TransformTime _)))|]. intros _.
  apply goes_through_bind;
    [rewrite load_technical_eq; apply goes_through_load|]. intros _.
  apply goes_through_ret.
Qed.

(** C8. Every run of the script goes through its stages in this order:
    for each instrument, in list order and with no pause in between, one
    fetch, one normalisation and one store into the bar table; then
    exactly one pause of 100; then, for each instrument and each
    indicator name in nested list order, one fetch, one normalisation,
    one store into the indicator table and a pause of 60.  A run that
    returns has gone through all of them; a run that raises has gone
    through those before the failing step and no other. *)
Theorem script_follows_schedule w :
  exists tr,
    trace (snd (script w)) = trace w ++ tr /\
    match fst (script w) with
    | Ok _ => stages tr = schedule (today (env w))
    | Raise _ => stages tr `prefix_of` schedule (today (env w))
    end.
Proof.
  assert (H : goes_through
                (for_each tickers (fun ticker =>
                   let url := hourly_url ticker in
                   let* data := extract url in
                   let* _ := transform_hourly data in
                   ret tt) ;;
                 sleep 100 ;;
                 for_each tickers (fun ticker =>
                   for_each technical_indicators (fun technical_indicator =>
                     let url := technical_url technical_indicator ticker
                                  (today (env w)) in
                     let* data := extract url in
                     let* _ := transform_technical data technical_indicator in
                     sleep 60)))
                (schedule (today (env w)))).
  { unfold schedule.
    apply goes_through_bind.
    { apply goes_through_for_each. intros ticker.
      change [Fetch (hourly_url ticker); Normalized; Stored "hourly_data"]
        with ([Fetch (hourly_url ticker)]
              ++ [Normalized; Stored "hourly_data"] ++ []).
      apply goes_through_bind; [apply goes_through_extract|]. intros data.
      apply goes_through_bind; [apply goes_through_transform_hourly|].
      intros _. apply goes_through_ret. }
    intros _.
    apply goes_through_bind; [apply (goes_through_log (ESleep 100))|].
    intros _.
    apply goes_through_for_each. intros ticker.
    apply goes_through_for_each. intros technical_indicator.
    change [Fetch (technical_url technical_indicator ticker (today (env w)));
            Normalized; Stored "technical_data"; Pause 60]
      with ([Fetch (technical_url technical_indicator ticker
                      (today (env w)))]
            ++ [Normalized; Stored "technical_data"] ++ [Pause 60]).
    apply goes_through_bind; [apply goes_through_extract|]. intros data.
    apply goes_through_bind; [apply goes_through_transform_technical|].
    intros _. apply (goes_through_log (ESleep 60)). }
  exact (H w).
Qed.

(** The script does return in the sample world: its run goes through the
    whole schedule. *)
Example script_returns_in_sample_world :
  fst (script sample_world) = Ok tt.
Proof. vm_compute. reflexivity. Qed.

End Stages.

Section Purity.

(** C3, as stated, fails: a call of [transform_hourly] leaves its
    argument changed, and has written to the console and to the
    database. *)
Lemma transform_hourly_rewrites_its_input :
  exists p' w',
    transform_hourly spy sample_world = (Ok p', w') /\
    p' <> spy /\
    trace w' <> trace sample_world /\
    server w' <> server sample_world.
Proof.
  do 2 eexists. split; [vm_compute; reflexivity|].
  repeat split; discriminate.
Qed.

Lemma with_values_other p values items k :
  k <> "values" ->
  subscript (with_values p values items) k = subscript p k.
Proof.
  intros Hk. destruct p as [| | | | | | |d]; try done.
  destruct values; try done. simpl.
  by rewrite dict_get_set_ne by congruence.
Qed.







End Purity.

Section Extract.

(** [extract] in closed form. *)
Lemma extract_run url w :
  extract url w
  = match peer (env w) (requests w) url with
    | None => (Raise ConnectionError, requested w url [] 1)
    | Some (status, None) =>
        (Raise JSONDecodeError, requested w url [StatusCode status] 1)
    | Some (status, Some body) =>
        (Ok body,
         requested w url
           [StatusCode status;
            ExtractTime (perf (env w) (S (ticks w)) - perf (env w) (ticks w))]
           2)
    end.
Proof.
  unfold extract, requests_get, perf_counter, print, log, json, ret, raise,
    requested, mbind. simpl.
  destruct (peer (env w) (requests w) url) as [[status [body|]]|]; simpl;
    by rewrite <-?app_assoc.
Qed.

(** X1. [extract] sends one request and returns the decoded body whatever the
    status code of the answer: it prints the code and does not look at it.
    It raises only when the peer does not answer, before anything is
    printed, or when the body is not JSON, after the status line; the
    timing line is printed only when it returns.  The database is not
    touched. *)
Theorem extract_ignores_status_code url w :
  exists lines n,
    extract url w
    = (match peer (env w) (requests w) url with
       | None => Raise ConnectionError
       | Some (_, None) => Raise JSONDecodeError
       | Some (_, Some body) => Ok body
       end,
       requested w url lines n) /\
    match peer (env w) (requests w) url with
    | None => lines = [] /\ n = 1%nat
    | Some (status, None) => lines = [StatusCode status] /\ n = 1%nat
    | Some (status, Some _) =>
        lines = [StatusCode status;
                 ExtractTime (perf (env w) (S (ticks w))
                              - perf (env w) (ticks w))] /\ n = 2%nat
    end.
Proof.
  rewrite extract_run.
  destruct (peer (env w) (requests w) url) as [[status [body|]]|]; eauto.
Qed.

End Extract.

Section Binds.

Context {A B : Type}.

Lemma mbind_ok (m : M A) (k : A -> M B) w a w1 :
  m w = (Ok a, w1) -> mbind m k w = k a w1.
Proof. unfold mbind. by intros ->. Qed.

Lemma mbind_raise (m : M A) (k : A -> M B) w e w1 :
  m w = (Raise e, w1) -> mbind m k w = (Raise e, w1).
Proof. unfold mbind. by intros ->. Qed.

End Binds.

Section FailFast.

Lemma dict_set_same k v d : dict_get k d = Some v -> dict_set k v d = d.
Proof.
  induction d as [|[k' v'] d IH]; simpl; [done|].
  destruct (String.eqb k k') eqn:E.
  - apply String.eqb_eq in E as ->. by intros [= ->].
  - intros H. by rewrite IH.
Qed.

(** Where [each] stops: the elements before the failing one have been
    stepped, those after it are as they were. *)
Lemma each_raise step l l' e :
  each step l = (l', Some e) <->
  exists before v after before' v',
    l = before ++ v :: after /\
    Forall2 (fun x x' => step x = (x', None)) before before' /\
    step v = (v', Some e) /\
    l' = before' ++ v' :: after.
Proof.
  revert l'. induction l as [|x l IH]; intros l'; simpl.
  - split; [discriminate|]. intros (before & ? & ? & ? & ? & H & _).
    by destruct before.
  - destruct (step x) as [x' [e'|]] eqn:Ex.
    + split.
      * intros [= <- ->]. exists [], x, l, [], x'. by repeat split.
      * intros (before & v & after & before' & v' & Hl & Hb & Hv & ->).
        destruct before as [|b before]; simplify_eq/=.
        -- apply Forall2_nil_inv_l in Hb as ->. simpl. congruence.
        -- apply Forall2_cons_inv_l in Hb as (? & ? & ? & _). congruence.
    + destruct (each step l) as [l1 o] eqn:El. split.
      * intros [= <- ->].
        destruct (proj1 (IH l1) eq_refl)
          as (before & v & after & before' & v' & -> & Hb & Hv & ->).
        exists (x :: before), v, after, (x' :: before'), v'.
        repeat split; try done. by constructor.
      * intros (before & v & after & before' & v' & Hl & Hb & Hv & ->).
        destruct before as [|b before]; simplify_eq/=; [congruence|].
        apply Forall2_cons_inv_l in Hb as (y & before1 & Hy & Hb & ->).
        assert (y = x') as -> by congruence.
        assert ((l1, o) = (before1 ++ v' :: after, Some e)) as El'.
        { apply IH. eauto 10. }
        by simplify_eq.
Qed.

Lemma each_stops step l v :
  In v l -> snd (step v) <> None -> snd (each step l) <> None.
Proof.
  intros Hin Hv. destruct (each step l) as [l' [e|]] eqn:E; [done|].
  apply each_ok in E.
  apply list_elem_of_In, list_elem_of_lookup in Hin as [i Hi].
  destruct (Forall2_lookup_l _ _ _ _ _ E Hi) as (v' & _ & Hs).
  by rewrite Hs in Hv.
Qed.

Lemma transform_hourly_raises p p' e w :
  transform_hourly_loop p = (p', Some e) ->
  transform_hourly p w = (Raise e, tick w).
Proof. unfold transform_hourly, mbind. simpl. by intros ->. Qed.

Lemma transform_technical_raises_tick p ind e w :
  transform_technical_loop p ind = Raise e ->
  transform_technical p ind w = (Raise e, tick w).
Proof. unfold transform_technical, mbind, lift. simpl. by intros ->. Qed.

(** X2. One record that cannot be normalised stops the whole batch, wherever
    it is in the payload: the normaliser raises after reading the clock
    once, nothing is printed and the database is not contacted, so the
    records before the bad one are not stored either. *)
Theorem bad_record_stores_nothing p ind values items v w :
  subscript p "values" = Ok values ->
  iterate values = Ok items ->
  In v items ->
  (snd (hourly_step p v) <> None ->
   exists e, transform_hourly p w = (Raise e, tick w)) /\
  (forall e', technical_row p ind v = Raise e' ->
   exists e, transform_technical p ind w = (Raise e, tick w)).
Proof.
  intros Hv Hi Hin. split.
  - intros Hbad.
    destruct (transform_hourly_loop p) as [p' [e|]] eqn:Hloop.
    + exists e. by eapply transform_hourly_raises.
    + exfalso. revert Hloop. unfold transform_hourly_loop. rewrite Hv, Hi.
      pose proof (each_stops (hourly_step p) items v Hin Hbad) as Hs.
      destruct (each _ items) as [l' o]. simpl in Hs. intros [= _ ->]. done.
  - intros e' Hbad.
    destruct (transform_technical_loop p ind) as [rows|e] eqn:Hloop.
    + exfalso. revert Hloop. unfold transform_technical_loop.
      rewrite Hv. simpl. rewrite Hi. simpl. intros Hc.
      apply collect_ok in Hc.
      apply list_elem_of_In, list_elem_of_lookup in Hin as [i Hi'].
      destruct (Forall2_lookup_l _ _ _ _ _ Hc Hi') as (r & _ & Hr).
      congruence.
    + exists e. by apply transform_technical_raises_tick.
Qed.

(** X3. When [transform_hourly] fails on a record of the list under
    ["values"], the document is left half converted: the records before
    the failing one are normalised rows, the failing record is as its
    last successful assignment left it, and the records after it are as
    they came. *)
Theorem transform_hourly_partial_update p p' e items :
  subscript p "values" = Ok (VList items) ->
  transform_hourly_loop p = (p', Some e) ->
  exists before v after before' v',
    items = before ++ v :: after /\
    Forall2 (fun x x' =>
               exists sym d r,
                 x = VDict d /\ meta_symbol p = Ok sym /\
                 decode_bar sym d = Some r /\
                 x' = VDict (normalized_bar d r)) before before' /\
    hourly_step p v = (v', Some e) /\
    subscript p' "values" = Ok (VList (before' ++ v' :: after)).
Proof.
  intros Hv. unfold transform_hourly_loop. rewrite Hv. simpl.
  destruct (each _ items) as [items' o] eqn:E. intros [= <- ->].
  apply each_raise in E
    as (before & v & after & before' & v' & -> & Hb & Hs & ->).
  exists before, v, after, before', v'. repeat split; try done.
  - eapply Forall2_impl; [exact Hb|]. intros x x' Hx. simpl in Hx.
    apply hourly_step_ok in Hx as (d & d' & -> & -> & Hx).
    apply hourly_body_ok in Hx as (sym & r & ? & ? & ->). eauto 10.
  - destruct p as [| | | | | | |d]; try discriminate. simpl.
    by rewrite dict_get_set_eq.
Qed.

End FailFast.

Lemma transform_hourly_partial_update_witness :
  exists before v after before' v',
    [VDict spy_record;
     VDict [("datetime", VStr "2024-01-01 10:00:00");
            ("open", VStr "470.1"); ("high", VStr "471.0");
            ("low", VStr "469.8"); ("close", VStr "470.5");
            ("volume", VStr "1.5e6")];
     VDict spy_record]
    = before ++ v :: after /\
    Forall2 (fun x x' =>
               exists sym d r,
                 x = VDict d /\ meta_symbol second_record_bad = Ok sym /\
                 decode_bar sym d = Some r /\
                 x' = VDict (normalized_bar d r)) before before' /\
    hourly_step second_record_bad v = (v', Some (ValueError AtInt)) /\
    subscript (fst (transform_hourly_loop second_record_bad)) "values"
    = Ok (VList (before' ++ v' :: after)).
Proof.
  apply (transform_hourly_partial_update second_record_bad
           (fst (transform_hourly_loop second_record_bad))
           (ValueError AtInt)).
  - reflexivity.
  - vm_compute. reflexivity.
Defined.

Lemma bad_record_stores_nothing_witness :
  (snd (hourly_step second_record_bad
          (VDict [("datetime", VStr "2024-01-01 10:00:00");
                  ("open", VStr "470.1"); ("high", VStr "471.0");
                  ("low", VStr "469.8"); ("close", VStr "470.5");
                  ("volume", VStr "1.5e6")])) <> None ->
   exists e, transform_hourly second_record_bad sample_world
             = (Raise e, tick sample_world)) /\
  (forall e',
     technical_row second_record_bad "rsi"
       (VDict [("datetime", VStr "2024-01-01 10:00:00");
               ("open", VStr "470.1"); ("high", VStr "471.0");
               ("low", VStr "469.8"); ("close", VStr "470.5");
               ("volume", VStr "1.5e6")]) = Raise e' ->
   exists e, transform_technical second_record_bad "rsi" sample_world
             = (Raise e, tick sample_world)).
Proof.
  eapply (bad_record_stores_nothing second_record_bad "rsi").
  - reflexivity.
  - reflexivity.
  - simpl. right. left. reflexivity.
Defined.

Section Rejections.

Lemma with_values_same d items :
  dict_get "values" d = Some (VList items) ->
  with_values (VDict d) (VList items) items = VDict d.
Proof. intros H. simpl. by rewrite dict_set_same. Qed.

Lemma hourly_step_no_symbol p v e :
  meta_symbol p = Raise e -> hourly_step p v = (v, Some e).
Proof.
  intros Hm. destruct v as [| | | | | | |d]; simpl; rewrite ?Hm; try done.
  unfold hourly_body, and_then, assign. by rewrite Hm.
Qed.

(** X4. A bar payload whose metadata cannot be read is rejected untouched:
    with at least one record under ["values"], [transform_hourly] raises
    what [response_dict["meta"]["symbol"]] raises (KeyError for a missing
    key) before any record has been changed, and the database is not
    contacted.  With no record the metadata is never read. *)
Theorem transform_hourly_needs_symbol d v items e w :
  dict_get "values" d = Some (VList (v :: items)) ->
  meta_symbol (VDict d) = Raise e ->
  transform_hourly_loop (VDict d) = (VDict d, Some e) /\
  transform_hourly (VDict d) w = (Raise e, tick w).
Proof.
  intros Hv Hm.
  assert (transform_hourly_loop (VDict d) = (VDict d, Some e)) as Hloop.
  { unfold transform_hourly_loop. simpl subscript. rewrite Hv. simpl.
    rewrite (hourly_step_no_symbol _ v e Hm).
    by rewrite dict_set_same. }
  split; [done|]. by eapply transform_hourly_raises.
Qed.

(** [strptime] does not take its own result: the second normalisation of
    a bar document stops at the datetime of its first record. *)
Lemma hourly_step_normalized p sym d r :
  meta_symbol p = Ok sym -> b_ticker r = sym ->
  hourly_step p (VDict (normalized_bar d r))
  = (VDict (normalized_bar d r), Some (TypeError AtStrptime)).
Proof.
  intros Hm Hr. simpl. unfold hourly_body, and_then.
  unfold assign at 1. rewrite Hm.
  assert (dict_set "symbol" sym (normalized_bar d r) = normalized_bar d r)
    as ->.
  { apply dict_set_same. unfold normalized_bar. dict_simpl. by rewrite Hr. }
  unfold assign at 1. unfold item, subscript, normalized_bar. by dict_simpl.
Qed.

(** X5. [transform_hourly] cannot be applied twice: on a document that it has
    normalised and that has at least one record, it raises the TypeError
    of [strptime] at the first record, leaves the document as it is and
    does not contact the database. *)
Theorem transform_hourly_twice_raises p p' v items w :
  subscript p "values" = Ok (VList (v :: items)) ->
  transform_hourly_loop p = (p', None) ->
  transform_hourly_loop p' = (p', Some (TypeError AtStrptime)) /\
  transform_hourly p' w = (Raise (TypeError AtStrptime), tick w).
Proof.
  intros Hv Hloop.
  assert (transform_hourly_loop p' = (p', Some (TypeError AtStrptime)))
    as Hloop'; [|split; [done|by eapply transform_hourly_raises]].
  pose proof (transform_hourly_loop_rows _ _ _ Hv Hloop)
    as (sym & rows & Hrows & Hall & [?|Hm]); [done|].
  apply Forall2_cons_inv_l in Hall
    as (row & rows' & (d & r & _ & _ & Hr & ->) & _ & ->).
  apply decode_bar_some in Hr as (Hsym & _).
  assert (meta_symbol p' = Ok sym) as Hm'.
  { revert Hm. unfold meta_symbol.
    apply transform_hourly_loop_ok in Hloop as (? & ? & ? & _ & _ & _ & ->).
    by rewrite with_values_other. }
  destruct p' as [| | | | | | |d']; try discriminate.
  unfold transform_hourly_loop. rewrite Hrows. simpl iterate. cbv iota beta.
  unfold each at 1. rewrite (hourly_step_normalized _ sym d r Hm' Hsym).
  simpl in Hrows. destruct (dict_get "values" d') eqn:Hd'; [|done].
  injection Hrows as ->. by rewrite with_values_same.
Qed.

(** X6. An answer without ["values"], as the API gives for an error, ends
    the run at the first instrument: whatever the status code,
    [extract] returns the document and [transform_hourly] raises
    KeyError.  One request has been sent, nothing is stored, and no
    connection to the database is opened. *)
Theorem error_answer_ends_the_run w status d :
  peer (env w) (requests w) (hourly_url "SPY")
  = Some (status, Some (VDict d)) ->
  dict_get "values" d = None ->
  script w
  = (Raise (KeyError "values"),
     tick (requested w (hourly_url "SPY")
             [StatusCode status;
              ExtractTime (perf (env w) (S (ticks w))
                           - perf (env w) (ticks w))] 2)).
Proof.
  intros Hpeer Hd. unfold script.
  erewrite mbind_ok by reflexivity.
  apply mbind_raise. unfold tickers. cbn [for_each].
  apply mbind_raise.
  erewrite mbind_ok by (rewrite extract_run, Hpeer; reflexivity).
  apply mbind_raise.
  apply transform_hourly_raises with (p' := VDict d).
  unfold transform_hourly_loop. simpl. by rewrite Hd.
Qed.

End Rejections.

Lemma transform_hourly_needs_symbol_witness :
  transform_hourly_loop (VDict [("values", VList [VDict spy_record])])
  = (VDict [("values", VList [VDict spy_record])], Some (KeyError "meta")) /\
  transform_hourly (VDict [("values", VList [VDict spy_record])]) sample_world
  = (Raise (KeyError "meta"), tick sample_world).
Proof.
  apply (transform_hourly_needs_symbol
           [("values", VList [VDict spy_record])] (VDict spy_record) []);
    reflexivity.
Defined.

Lemma transform_hourly_twice_raises_witness :
  transform_hourly_loop (fst (transform_hourly_loop spy))
  = (fst (transform_hourly_loop spy), Some (TypeError AtStrptime)) /\
  transform_hourly (fst (transform_hourly_loop spy)) sample_world
  = (Raise (TypeError AtStrptime), tick sample_world).
Proof.
  apply (transform_hourly_twice_raises spy (fst (transform_hourly_loop spy))
           (VDict spy_record) []).
  - reflexivity.
  - vm_compute. reflexivity.
Defined.

Lemma error_answer_ends_the_run_witness :
  script error_world
  = (Raise (KeyError "values"),
     tick (requested error_world (hourly_url "SPY")
             [StatusCode 429;
              ExtractTime (perf (env error_world) (S (ticks error_world))
                           - perf (env error_world) (ticks error_world))] 2)).
Proof.
  apply (error_answer_ends_the_run error_world 429
           [("code", VInt 429); ("message", VStr "out of API credits");
            ("status", VStr "error")]); reflexivity.
Defined.

Section IndicatorFailures.

Lemma technical_failure_first p ind d :
  technical_failure p ind d =
  match meta_symbol p with Raise e => Some e | Ok _ =>
  match bind (item "datetime" d) strptime with Raise e => Some e | Ok _ =>
  match list_index (keys d) 1 with Raise e => Some e | Ok _ =>
  match bind (item ind d) float with Raise e => Some e | Ok _ => None
  end end end end.
Proof.
  unfold technical_failure, technical_row.
  change (subscript (VDict d) "datetime") with (item "datetime" d).
  change (subscript (VDict d) ind) with (item ind d).
  destruct (meta_symbol p); cbn [bind]; [|done].
  destruct (bind (item "datetime" d) strptime); cbn [bind]; [|done].
  cbn [keys_of bind].
  destruct (list_index (keys d) 1); cbn [bind]; [|done].
  by destruct (bind (item ind d) float).
Qed.

Lemma float_raises_float x e : float x = Raise e -> is_float_failure e = true.
Proof.
  destruct x; simpl; try (intros [= <-]; reflexivity).
  - unfold float_of_int.
    destruct (binary_normalize _ _ _ _ _); simpl; try discriminate.
    by intros [= <-].
  - unfold float_of_int.
    destruct (binary_normalize _ _ _ _ _); simpl; try discriminate.
    by intros [= <-].
  - unfold float_of_string. destruct (sign _) as [neg r].
    destruct (_ || _); [discriminate|].
    destruct (is_word "nan" r); [discriminate|].
    destruct (decimal r) as [[]|]; simpl; [discriminate|].
    by intros [= <-].
Qed.

Lemma second_key_length d :
  match list_index (keys d) 1 with
  | Ok _ => (2 <= length d)%nat
  | Raise e => e = IndexError /\ (length d < 2)%nat
  end.
Proof.
  unfold list_index, keys. destruct d as [|? [|? ?]]; simpl;
    first [lia | split; [done|lia]].
Qed.

(** X7. Which exception [transform_technical] raises on a record that has a
    datetime string, in a payload whose symbol can be read.  The
    statements of the loop body run in order: the datetime is parsed
    first, then the second key is taken, then the entry named by the
    [indicator] argument is read and converted. *)
Theorem technical_failure_classes p sym ind d s :
  meta_symbol p = Ok sym ->
  dict_get "datetime" d = Some (VStr s) ->
  (technical_failure p ind d = Some (ValueError AtStrptime)
   <-> ~ datetime_ok d) /\
  (technical_failure p ind d = Some IndexError
   <-> datetime_ok d /\ (length d < 2)%nat) /\
  (technical_failure p ind d = Some (KeyError ind)
   <-> datetime_ok d /\ (2 <= length d)%nat /\ dict_get ind d = None) /\
  ((exists e, technical_failure p ind d = Some e /\ is_float_failure e = true)
   <-> datetime_ok d /\ (2 <= length d)%nat /\
       is_Some (dict_get ind d) /\ decoded_float ind d = None) /\
  (technical_failure p ind d = None
   <-> datetime_ok d /\ (2 <= length d)%nat /\
       is_Some (decoded_float ind d)).
Proof.
  intros Hm Hdt. rewrite technical_failure_first, Hm.
  unfold datetime_ok.
  pose proof (decoded_time_is_some "datetime" d) as Ht.
  pose proof (decoded_float_is_some ind d) as Hf.
  pose proof (second_key_length d) as Hlen.
  pose proof (item_conv float ind d) as Hitem.
  pose proof (item_conv strptime "datetime" d) as Hdate.
  rewrite Hdt in Hdate. simpl in Hdate.
  assert (Hne : forall e, is_float_failure e = true ->
            e <> ValueError AtStrptime /\ e <> IndexError /\
            e <> KeyError ind).
  { intros e He. by destruct e as [| |[]|[]|[]| | | | | | | | | | | | |]. }
  assert (Hsome : forall o : option spec_float, o = None -> ~ is_Some o).
  { intros o -> [? ?]. done. }
  destruct (bind (item "datetime" d) strptime) as [t|e1] eqn:E1.
  - assert (is_Some (decoded_time "datetime" d)) as Hok by (apply Ht; eauto).
    destruct (list_index (keys d) 1) as [k|e2].
    + rewrite Hitem in *. clear Hitem.
      destruct (dict_get ind d) as [x|] eqn:Ex.
      * destruct (float x) as [y|e3] eqn:E3.
        -- assert (is_Some (decoded_float ind d)) as Hy by (apply Hf; eauto).
           split_and!; split; intros HH; destruct_and?; simplify_eq;
             try done; try lia.
           all: try (destruct HH as (? & ? & ?); done).
           all: try (exfalso; by eapply Hsome).
        -- assert (decoded_float ind d = None) as Hn.
           { destruct (decoded_float ind d) eqn:E; [|done].
             destruct (proj1 Hf) as [? ?]; [by eexists|discriminate]. }
           apply float_raises_float in E3 as Hfl.
           destruct (Hne _ Hfl) as (? & ? & ?).
           split_and!; split; intros HH; destruct_and?; simplify_eq;
             try done; try lia.
           all: try (exfalso; by eapply Hsome).
           all: eauto.
      * assert (decoded_float ind d = None) as Hn.
        { destruct (decoded_float ind d) eqn:E; [|done].
          destruct (proj1 Hf) as [? ?]; [by eexists|discriminate]. }
        split_and!; split; intros HH; destruct_and?; simplify_eq;
          try done; try lia.
        all: try (destruct HH as (? & [= <-] & ?); done).
        all: try (exfalso; by eapply Hsome).
        all: try (by match goal with H : is_Some None |- _ => destruct H end).
    + destruct Hlen as [-> Hlen].
      split_and!; split; intros HH; destruct_and?; simplify_eq;
        try done; try lia.
      all: try (destruct HH as (? & [= <-] & ?); done).
  - assert (~ is_Some (decoded_time "datetime" d)) as Hno.
    { intros H. apply Ht in H as [? ?]. discriminate. }
    assert (e1 = ValueError AtStrptime) as ->.
    { destruct (strptime_string s) eqn:Es; simpl in Hdate; [discriminate|].
      injection Hdate as <-. by eapply strptime_string_raises. }
    split_and!; split; intros HH; destruct_and?; simplify_eq;
      try done; try lia.
    all: try (destruct HH as (? & [= <-] & ?); done).
Qed.

End IndicatorFailures.

Lemma technical_failure_classes_witness :
  (technical_failure spy_rsi "ema" rsi_record
   = Some (ValueError AtStrptime)
   <-> ~ datetime_ok rsi_record) /\
  (technical_failure spy_rsi "ema" rsi_record
   = Some IndexError
   <-> datetime_ok rsi_record /\
       (length rsi_record < 2)%nat) /\
  (technical_failure spy_rsi "ema" rsi_record
   = Some (KeyError "ema")
   <-> datetime_ok rsi_record /\
       (2 <= length rsi_record)%nat /\
       dict_get "ema" rsi_record = None) /\
  ((exists e,
      technical_failure spy_rsi "ema" rsi_record
      = Some e /\ is_float_failure e = true)
   <-> datetime_ok rsi_record /\
       (2 <= length rsi_record)%nat /\
       is_Some (dict_get "ema" rsi_record) /\
       decoded_float "ema" rsi_record = None) /\
  (technical_failure spy_rsi "ema" rsi_record
   = None
   <-> datetime_ok rsi_record /\
       (2 <= length rsi_record)%nat /\
       is_Some (decoded_float "ema" rsi_record)).
Proof.
  apply (technical_failure_classes spy_rsi (VStr "SPY") "ema"
           rsi_record
           "2024-01-01 09:30:00"); reflexivity.
Defined.

Section Binding.

Lemma mogrify_normalized_bar d b :
  mogrify hourly_params (VDict (normalized_bar d b))
  = (if adaptable (b_ticker b) then Ok (Some (bar_cells b))
     else Raise ProgrammingError).
Proof.
  unfold mogrify, hourly_params, normalized_bar, bar_cells. cbn [named].
  dict_simpl. by destruct (adaptable (b_ticker b)).
Qed.

Lemma mogrify_indicator_dict i :
  mogrify technical_params (VDict (indicator_dict i))
  = (if adaptable (i_ticker i) then Ok (Some (indicator_cells i))
     else Raise ProgrammingError).
Proof.
  unfold mogrify, technical_params, indicator_dict, indicator_cells. simpl.
  by destruct (adaptable (i_ticker i)).
Qed.


End Binding.

Section Tables.

Lemma float_eqb_refl f : Db.float_eqb f f = true.
Proof.
  destruct f; simpl; rewrite ?Bool.eqb_reflx, ?Pos.eqb_refl, ?Z.eqb_refl;
    done.
Qed.

Lemma datetime_eqb_refl t : Db.datetime_eqb t t = true.
Proof. unfold Db.datetime_eqb. by rewrite !Z.eqb_refl. Qed.

Lemma obj_eqb_refl : forall a, Db.obj_eqb a a = true.
Proof.
  fix IH 1. intros [| b | z | f | s | t | l | d]; simpl.
  - done.
  - apply Bool.eqb_reflx.
  - apply Z.eqb_refl.
  - apply float_eqb_refl.
  - apply String.eqb_refl.
  - apply datetime_eqb_refl.
  - induction l as [|x l IHl]; [done|]. by rewrite IH, IHl.
  - induction d as [|[k x] d IHd]; [done|].
    by rewrite String.eqb_refl, IH, IHd.
Qed.

Lemma cells_eqb_refl r : Db.cells_eqb r r = true.
Proof. induction r; simpl; [done|]. by rewrite obj_eqb_refl, IHr. Qed.

Lemma find_table_is schema name db t :
  Db.find_table schema name db = Some t ->
  Db.tschema t = schema /\ Db.tname t = name.
Proof.
  intros H. apply find_some in H as [_ H]. unfold Db.is_table in H.
  apply andb_true_iff in H as [H1 H2].
  by apply String.eqb_eq in H1, H2.
Qed.

Lemma find_table_exists schema name db t :
  Db.find_table schema name db = Some t -> Db.table_exists name db = true.
Proof.
  intros H. pose proof (find_table_is _ _ _ _ H) as [_ Hn].
  apply find_some in H as [Hin _].
  apply existsb_exists. exists t. split; [done|]. by apply String.eqb_eq.
Qed.

Lemma is_table_other s n s' n' t :
  s' <> s \/ n' <> n ->
  Db.is_table s n t = true -> Db.is_table s' n' t = false.
Proof.
  unfold Db.is_table. intros Hne H.
  apply andb_true_iff in H as [H1 H2]. apply String.eqb_eq in H1, H2.
  apply andb_false_iff. rewrite !String.eqb_neq. subst.
  destruct Hne; [by left|by right].
Qed.

Lemma find_replace_same t t' db :
  Db.find_table (Db.tschema t') (Db.tname t') db = Some t ->
  Db.find_table (Db.tschema t') (Db.tname t') (Db.replace_table t' db)
  = Some t'.
Proof.
  unfold Db.find_table, Db.replace_table.
  induction db as [|x db IH]; simpl; [done|].
  destruct (Db.is_table _ _ x) eqn:E; simpl.
  - intros _. unfold Db.is_table. by rewrite !String.eqb_refl.
  - rewrite E. exact IH.
Qed.

Lemma find_replace_other t' db s n :
  s <> Db.tschema t' \/ n <> Db.tname t' ->
  Db.find_table s n (Db.replace_table t' db) = Db.find_table s n db.
Proof.
  intros Hne. unfold Db.find_table, Db.replace_table.
  induction db as [|x db IH]; simpl; [done|].
  destruct (Db.is_table (Db.tschema t') (Db.tname t') x) eqn:E.
  - rewrite (is_table_other _ _ _ _ x Hne E).
    assert (Db.is_table s n t' = false) as ->; [|done].
    apply (is_table_other (Db.tschema t') (Db.tname t')); [done|].
    unfold Db.is_table. by rewrite !String.eqb_refl.
  - by rewrite IH.
Qed.

Lemma find_table_app schema name db t :
  Db.find_table schema name (db ++ [t])
  = match Db.find_table schema name db with
    | Some x => Some x
    | None => if Db.is_table schema name t then Some t else None
    end.
Proof.
  unfold Db.find_table. induction db as [|x db IH]; simpl; [done|].
  by destruct (Db.is_table schema name x).
Qed.

(** One INSERT that succeeds adds one row, the converted cells, at the
    end of the table of the current schema, and changes nothing else. *)
Lemma insert_row_ok c cur name cells db db' :
  Db.insert_row c cur name cells db = Ok db' ->
  exists t stored,
    Db.find_table cur name db = Some t /\
    (length cells <= length (Db.columns t))%nat /\
    c (Db.columns t) (Db.pad (Db.columns t) cells) = Some stored /\
    Db.null_violation (Db.columns t) (Db.pkey t) stored = None /\
    Db.find_table cur name db' = Some (with_rows t [stored]) /\
    forall s n, s <> cur \/ n <> name ->
                Db.find_table s n db' = Db.find_table s n db.
Proof.
  unfold Db.insert_row.
  destruct (Db.find_table cur name db) as [t|] eqn:Ef; [|done].
  destruct (_ <? _)%nat eqn:El; [done|].
  destruct (c _ _) as [stored|] eqn:Ec; [|done].
  destruct (Db.null_violation _ _ _) eqn:En; [done|].
  destruct (_ && _); [done|]. intros [= <-].
  pose proof (find_table_is _ _ _ _ Ef) as [Hs Hn].
  exists t, stored. apply Nat.ltb_ge in El. repeat split; try done.
  - rewrite <-Hs, <-Hn in Ef |- *.
    by apply (find_replace_same t (with_rows t [stored])).
  - intros s n Hne. apply find_replace_other. simpl. by rewrite Hs, Hn.
Qed.

(** An INSERT whose key is already in the table. *)
Lemma insert_row_duplicate c cur name cells db t stored :
  Db.find_table cur name db = Some t ->
  (length cells <= length (Db.columns t))%nat ->
  c (Db.columns t) (Db.pad (Db.columns t) cells) = Some stored ->
  Db.null_violation (Db.columns t) (Db.pkey t) stored = None ->
  Db.pkey t <> [] ->
  In stored (Db.rows t) ->
  Db.insert_row c cur name cells db = Raise (UniqueViolation name).
Proof.
  intros Ef El Ec En Hpk Hin. unfold Db.insert_row. rewrite Ef.
  apply Nat.ltb_ge in El. rewrite El, Ec, En.
  assert (existsb (fun r => Db.cells_eqb
                     (Db.key_of (Db.columns t) (Db.pkey t) r)
                     (Db.key_of (Db.columns t) (Db.pkey t) stored))
            (Db.rows t) = true) as ->.
  { apply existsb_exists. exists stored. split; [done|].
    apply cells_eqb_refl. }
  destruct (Db.pkey t); [done|]. reflexivity.
Qed.

Section Rows.

Variable e : environment.
Variable table : string.

Lemma insert_rows_ok rows : forall db db' t,
  insert_rows e table rows db = Ok db' ->
  Db.find_table (current e) table db = Some t ->
  exists stored,
    Db.find_table (current e) table db' = Some (with_rows t stored) /\
    Forall2 (fun cells row =>
               coerce e (Db.columns t) (Db.pad (Db.columns t) cells)
               = Some row) rows stored /\
    forall s n, s <> current e \/ n <> table ->
                Db.find_table s n db' = Db.find_table s n db.
Proof.
  induction rows as [|cells rows IH]; intros db db' t; simpl.
  - intros [= <-] Hf. exists []. unfold with_rows. rewrite app_nil_r.
    destruct t. auto.
  - destruct (Db.insert_row _ _ _ _ _) as [db1|] eqn:E1; [|done]. simpl.
    intros Hrows Hf.
    apply insert_row_ok in E1
      as (t1 & stored & Hf1 & _ & Hc & _ & Hf' & Hother).
    assert (t1 = t) as -> by congruence.
    destruct (IH _ _ _ Hrows Hf') as (more & Hfm & Hall & Hother').
    exists (stored :: more). split; [|split].
    + rewrite Hfm. unfold with_rows. simpl. by rewrite <-app_assoc.
    + by constructor.
    + intros s n Hne. by rewrite Hother', Hother.
Qed.

Lemma insert_rows_nonempty cells rows db db' :
  insert_rows e table (cells :: rows) db = Ok db' ->
  is_Some (Db.find_table (current e) table db).
Proof.
  simpl. destruct (Db.insert_row _ _ _ _ _) as [db1|] eqn:E1; [|done].
  apply insert_row_ok in E1 as (t & ? & -> & _). eauto.
Qed.

Lemma insert_rows_app rows1 rows2 db :
  insert_rows e table (rows1 ++ rows2) db
  = bind (insert_rows e table rows1 db) (insert_rows e table rows2).
Proof.
  revert db. induction rows1 as [|r rows1 IH]; intros db; simpl; [done|].
  destruct (Db.insert_row _ _ _ _ _); simpl; [apply IH|done].
Qed.

Variable params : list string.

Lemma mogrify_all_bound page : forall rs rows,
  mogrify_all params page = Ok rs -> bound rs = Some rows ->
  Forall2 (binds params) page rows.
Proof.
  induction page as [|a page IH]; intros rs rows; simpl.
  - intros [= <-] [= <-]. constructor.
  - destruct (mogrify params a) as [r|] eqn:Ea; [|done]. simpl.
    destruct (mogrify_all params page) as [rs'|]; [|done]. simpl.
    intros [= <-]. simpl. destruct r as [cells|]; [|done].
    destruct (bound rs') as [rows'|] eqn:Eb; [|done]. intros [= <-].
    constructor; [done|]. by apply (IH rs').
Qed.

Lemma binds_mogrify_all page rows :
  Forall2 (binds params) page rows ->
  exists rs, mogrify_all params page = Ok rs /\ bound rs = Some rows.
Proof.
  induction 1 as [|a cells page rows Ha _ (rs & Hrs & Hb)]; simpl.
  - by exists [].
  - unfold binds in Ha. rewrite Ha, Hrs. simpl.
    exists (Some cells :: rs). simpl. by rewrite Hb.
Qed.

(** A page that the server accepts is its rows inserted one by one. *)
Lemma insert_page_ok page db db' :
  insert_page e table params page db = Ok db' ->
  exists rows,
    Forall2 (binds params) page rows /\
    insert_rows e table rows db = Ok db'.
Proof.
  unfold insert_page.
  destruct (mogrify_all params page) as [rs|] eqn:Ers; [|done]. simpl.
  destruct (bound rs) as [rows|] eqn:Eb; [|done]. intros H.
  exists rows. split; [|done]. by eapply mogrify_all_bound.
Qed.

Lemma insert_page_binds page rows db :
  Forall2 (binds params) page rows ->
  insert_page e table params page db = insert_rows e table rows db.
Proof.
  intros H. apply binds_mogrify_all in H as (rs & Hrs & Hb).
  unfold insert_page. rewrite Hrs. simpl. by rewrite Hb.
Qed.

Lemma insert_pages_ok pages : forall db db',
  insert_pages e table params pages db = Ok db' ->
  exists rows,
    Forall2 (binds params) (concat pages) rows /\
    insert_rows e table rows db = Ok db'.
Proof.
  induction pages as [|page pages IH]; intros db db'; simpl.
  - intros [= <-]. by exists [].
  - destruct (insert_page _ _ _ _ _) as [db1|] eqn:E1; [|done]. simpl.
    intros Hrest. apply insert_page_ok in E1 as (rows1 & Hb1 & Hr1).
    apply IH in Hrest as (rows2 & Hb2 & Hr2).
    exists (rows1 ++ rows2). split; [by apply Forall2_app|].
    by rewrite insert_rows_app, Hr1.
Qed.

Lemma paginate_concat fuel : forall l, concat (paginate fuel l) = l.
Proof.
  induction fuel as [|fuel IH]; intros [|x l]; try done.
  - simpl. by rewrite app_nil_r.
  - change (paginate (S fuel) (x :: l))
      with (take page_size (x :: l)
              :: paginate fuel (drop page_size (x :: l))).
    cbn [concat]. rewrite IH. apply take_drop.
Qed.

(** A batch that the server accepts is the rows of its elements inserted
    one by one, in the order of the list. *)
Lemma insert_batch_ok items db db' :
  insert_batch e table params (VList items) db = Ok db' ->
  exists rows,
    Forall2 (binds params) items rows /\
    insert_rows e table rows db = Ok db'.
Proof.
  unfold insert_batch. simpl. intros H.
  apply insert_pages_ok in H. by rewrite paginate_concat in H.
Qed.

(** The first element of a batch is the first row sent. *)
Lemma insert_batch_first item items cells rows db err :
  binds params item cells ->
  Forall2 (binds params) items rows ->
  Db.insert_row (coerce e) (current e) table cells db = Raise err ->
  insert_batch e table params (VList (item :: items)) db = Raise err.
Proof.
  intros Hb Hrows Herr. unfold insert_batch. simpl iterate.
  cbn [bind]. cbn [length].
  change (paginate (S (length items)) (item :: items))
    with (take page_size (item :: items)
            :: paginate (length items) (drop page_size (item :: items))).
  cbn [insert_pages].
  assert (Forall2 (binds params) (take page_size (item :: items))
            (cells :: take (pred page_size) rows)) as Hpage.
  { change (take page_size (item :: items))
      with (item :: take (pred page_size) items).
    constructor; [done|]. by apply Forall2_take. }
  rewrite (insert_page_binds _ _ _ Hpage). simpl. by rewrite Herr.
Qed.

End Rows.

End Tables.

Section Stored.

Lemma load_returns table cols pk params data w w' :
  load table cols pk params data w = (Ok tt, w') ->
  accepting (env w) (length (conns w)) = true /\
  env w' = env w /\
  length (conns w') = S (length (conns w)) /\
  insert_batch (env w) table params data
    (ensured (current (env w)) table cols pk (server w)) = Ok (server w').
Proof.
  intros Hload.
  pose proof (load_outcome table cols pk params data w) as H.
  cbv zeta in H.
  destruct (accepting (env w) _); [|rewrite H in Hload; discriminate].
  destruct (insert_batch _ _ _ _ _) as [db|err];
    [|destruct H as (? & ? & ? & H); rewrite H in Hload; discriminate].
  rewrite H in Hload. injection Hload as <-. unfold session. simpl.
  rewrite length_app. simpl. repeat split; try done. lia.
Qed.

Lemma load_rejected table cols pk params data w err :
  accepting (env w) (length (conns w)) = true ->
  insert_batch (env w) table params data
    (ensured (current (env w)) table cols pk (server w)) = Raise err ->
  exists w', load table cols pk params data w = (Raise err, w') /\
             server w' = server w.
Proof.
  intros Hacc Hb.
  pose proof (load_outcome table cols pk params data w) as H.
  cbv zeta in H. rewrite Hacc, Hb in H. destruct H as (? & ? & ? & ->).
  eauto.
Qed.

Lemma ensured_found schema table cols pk db t :
  Db.find_table schema table db = Some t ->
  ensured schema table cols pk db = db.
Proof.
  intros H. unfold ensured. by rewrite (find_table_exists _ _ _ _ H).
Qed.

Lemma ensured_created schema table cols pk db :
  Db.table_exists table db = false ->
  Db.find_table schema table (ensured schema table cols pk db)
  = Some (Db.mkTable schema table cols pk []).
Proof.
  intros H. unfold ensured. rewrite H, find_table_app.
  rewrite (table_absent schema _ _ H).
  unfold Db.is_table. simpl. by rewrite !String.eqb_refl.
Qed.

Lemma load_appends table cols pk params items w w' :
  load table cols pk params (VList items) w = (Ok tt, w') ->
  appended table cols params items w w'.
Proof.
  intros Hload. apply load_returns in Hload as (_ & _ & _ & Hb).
  apply insert_batch_ok in Hb as (rows & Hbinds & Hrows).
  unfold appended, rows_of, columns_for. cbv zeta.
  destruct (Db.find_table (current (env w)) table (server w)) as [t|] eqn:Ef.
  - rewrite (ensured_found _ _ cols pk _ _ Ef) in Hrows.
    destruct (insert_rows_ok _ _ _ _ _ _ Hrows Ef) as (stored & -> & Hall & Ho).
    exists stored. split; [done|]. split; [|done].
    eapply Forall2_trans; [|exact Hbinds|exact Hall].
    intros item cells row ? ?. by exists cells.
  - destruct (Db.table_exists table (server w)) eqn:Ex.
    + unfold ensured in Hrows. rewrite Ex in Hrows.
      destruct rows as [|cells rows].
      * apply Forall2_nil_inv_r in Hbinds as ->. injection Hrows as <-.
        rewrite Ef. exists []. by repeat split.
      * apply insert_rows_nonempty in Hrows as [? Hsome]. congruence.
    + pose proof (ensured_created (current (env w)) _ cols pk _ Ex) as Ef'.
      destruct (insert_rows_ok _ _ _ _ _ _ Hrows Ef')
        as (stored & -> & Hall & Ho).
      exists stored. split; [done|]. split.
      * eapply Forall2_trans; [|exact Hbinds|exact Hall].
        intros item cells row ? ?. by exists cells.
      * intros s n Hne. rewrite (Ho s n Hne). unfold ensured. rewrite Ex.
        rewrite find_table_app.
        destruct (Db.find_table s n (server w)); [done|].
        assert (Db.is_table s n
                  (Db.mkTable (current (env w)) table cols pk []) = false)
          as ->; [|done].
        apply (is_table_other (current (env w)) table); [done|].
        unfold Db.is_table. simpl. by rewrite !String.eqb_refl.
Qed.

(** X9. A loader that returns has appended one stored row per element of the
    batch, in order, to its table in the current schema: the named
    parameters of the element, converted to the columns of the table.
    Rows that were in the table are kept, and the other tables are not
    changed. *)
Theorem loaders_append_rows items w w' :
  (load_hourly (VList items) w = (Ok tt, w') ->
   appended "hourly_data" hourly_columns hourly_params items w w') /\
  (load_technical (VList items) w = (Ok tt, w') ->
   appended "technical_data" technical_columns technical_params items w w').
Proof.
  rewrite load_hourly_eq, load_technical_eq.
  split; apply load_appends.
Qed.

Lemma load_again table cols pk params item items w w1 :
  pk <> [] ->
  Db.table_exists table (server w) = false ->
  load table cols pk params (VList (item :: items)) w = (Ok tt, w1) ->
  accepting (env w1) (length (conns w1)) = true ->
  exists w2,
    load table cols pk params (VList (item :: items)) w1
    = (Raise (UniqueViolation table), w2) /\
    server w2 = server w1.
Proof.
  intros Hpk Hex Hload Hacc.
  apply load_returns in Hload as (_ & He & _ & Hb).
  apply load_rejected; [done|]. rewrite He.
  apply insert_batch_ok in Hb as (rows & Hbinds & Hrows).
  apply Forall2_cons_inv_l in Hbinds as (cells & rows' & Hcells & Hrest & ->).
  pose proof (ensured_created (current (env w)) _ cols pk _ Hex) as Ef.
  simpl in Hrows.
  destruct (Db.insert_row _ _ _ _ _) as [db1|] eqn:E1; [|done].
  simpl in Hrows.
  apply insert_row_ok in E1 as (t & stored & Ef1 & Hlen & Hc & Hn & Ef' & _).
  assert (t = Db.mkTable (current (env w)) table cols pk []) as ->
    by congruence.
  destruct (insert_rows_ok _ _ _ _ _ _ Hrows Ef') as (more & Hfin & _ & _).
  rewrite (ensured_found _ _ cols pk _ _ Hfin).
  eapply insert_batch_first; [exact Hcells|exact Hrest|].
  eapply insert_row_duplicate; [exact Hfin|done..|].
  simpl. by left.
Qed.

(** X10. The pipeline cannot store the same batch twice.  After a loader has
    created its table and stored a batch that is not empty, a second call
    with this batch raises the unique violation of the primary key at its
    first row, and nothing of the second call is committed. *)
Theorem second_load_violates_key item items w w1 :
  (Db.table_exists "hourly_data" (server w) = false ->
   load_hourly (VList (item :: items)) w = (Ok tt, w1) ->
   accepting (env w1) (length (conns w1)) = true ->
   exists w2,
     load_hourly (VList (item :: items)) w1
     = (Raise (UniqueViolation "hourly_data"), w2) /\
     server w2 = server w1) /\
  (Db.table_exists "technical_data" (server w) = false ->
   load_technical (VList (item :: items)) w = (Ok tt, w1) ->
   accepting (env w1) (length (conns w1)) = true ->
   exists w2,
     load_technical (VList (item :: items)) w1
     = (Raise (UniqueViolation "technical_data"), w2) /\
     server w2 = server w1).
Proof.
  rewrite load_hourly_eq, load_technical_eq.
  split; by apply load_again.
Qed.



End Stored.

Lemma loaders_append_rows_witness :
  appended "hourly_data" hourly_columns hourly_params [spy_row]
    sample_world (snd (load_hourly (VList [spy_row]) sample_world)) /\
  appended "technical_data" technical_columns technical_params
    [spy_rsi_row] sample_world
    (snd (load_technical (VList [spy_rsi_row]) sample_world)).
Proof.
  split.
  - apply (proj1 (loaders_append_rows [spy_row] sample_world
                    (snd (load_hourly (VList [spy_row]) sample_world)))).
    vm_compute. reflexivity.
  - apply (proj2 (loaders_append_rows [spy_rsi_row] sample_world
                    (snd (load_technical (VList [spy_rsi_row])
                            sample_world)))).
    vm_compute. reflexivity.
Defined.

Lemma second_load_violates_key_witness :
  (exists w2,
     load_hourly (VList [spy_row])
       (snd (load_hourly (VList [spy_row]) sample_world))
     = (Raise (UniqueViolation "hourly_data"), w2) /\
     server w2 = server (snd (load_hourly (VList [spy_row]) sample_world)))
  /\
  (exists w2,
     load_technical (VList [spy_rsi_row])
       (snd (load_technical (VList [spy_rsi_row]) sample_world))
     = (Raise (UniqueViolation "technical_data"), w2) /\
     server w2
     = server (snd (load_technical (VList [spy_rsi_row]) sample_world))).
Proof.
  split.
  - apply (proj1 (second_load_violates_key spy_row [] sample_world
                    (snd (load_hourly (VList [spy_row]) sample_world))));
      vm_compute; reflexivity.
  - apply (proj2 (second_load_violates_key spy_rsi_row [] sample_world
                    (snd (load_technical (VList [spy_rsi_row])
                            sample_world))));
      vm_compute; reflexivity.
Defined.


Section EndToEnd.

Lemma transform_hourly_returns p w p' w' :
  transform_hourly p w = (Ok p', w') ->
  exists values w2,
    transform_hourly_loop p = (p', None) /\
    subscript p' "values" = Ok values /\
    env w2 = env w /\ server w2 = server w /\
    load_hourly values w2 = (Ok tt, w').
Proof.
  unfold transform_hourly, mbind, perf_counter, print, log, lift, ret. simpl.
  destruct (transform_hourly_loop p) as [p1 [e|]] eqn:Hloop; [done|].
  destruct (subscript p1 "values") as [values|] eqn:Hv; [|done].
  match goal with |- context [load_hourly values ?w0] =>
    destruct (load_hourly values w0) as [[[]|] w3] eqn:El; [|done];
    intros [= <- <-]; exists values, w0
  end.
  by repeat split.
Qed.

Lemma transform_technical_returns p ind w p' w' :
  transform_technical p ind w = (Ok p', w') ->
  exists rows w2,
    transform_technical_loop p ind = Ok rows /\
    env w2 = env w /\ server w2 = server w /\
    load_technical (VList rows) w2 = (Ok tt, w').
Proof.
  unfold transform_technical, mbind, perf_counter, print, log, lift, ret.
  simpl.
  destruct (transform_technical_loop p ind) as [rows|] eqn:Hloop; [|done].
  match goal with |- context [load_technical (VList rows) ?w0] =>
    destruct (load_technical (VList rows) w0) as [[[]|] w3] eqn:El; [|done];
    intros [= <- <-]; exists rows, w0
  end.
  by repeat split.
Qed.

(** X12. From the payload to the table.  When [transform_hourly] returns, the
    bar table of the current schema holds the rows it had and then, for
    every record of the payload in order, the row that the server makes
    of the record's bar: the symbol of the payload, the parsed datetime,
    the four prices and the volume, in the order of the columns. *)
Theorem transform_hourly_stores_bars p sym records w p' w' :
  meta_symbol p = Ok sym ->
  subscript p "values" = Ok (VList records) ->
  transform_hourly p w = (Ok p', w') ->
  exists stored,
    rows_of (current (env w)) "hourly_data" (server w')
    = rows_of (current (env w)) "hourly_data" (server w) ++ stored /\
    Forall2 (fun v row =>
               exists d b,
                 v = VDict d /\ decode_bar sym d = Some b /\
                 stores (env w)
                   (columns_for (current (env w)) "hourly_data"
                      hourly_columns (server w))
                   (bar_cells b) row)
      records stored.
Proof.
  intros Hm Hv Hrun.
  apply transform_hourly_returns in Hrun
    as (values & w2 & Hloop & Hv' & He & Hs & Hload).
  destruct (transform_hourly_loop_rows _ _ _ Hv Hloop)
    as (sym0 & rows & Hrows & Hall & _).
  assert (values = VList rows) as -> by congruence.
  rewrite load_hourly_eq in Hload. apply load_appends in Hload.
  destruct Hload as (stored & Hst & Hall' & _).
  rewrite He, Hs in *. exists stored. split; [done|].
  eapply Forall2_trans; [|exact Hall|exact Hall'].
  intros v row st (d & b & -> & Hm0 & Hb & ->) (cells & Hbind & Hc).
  exists d, b. split; [done|]. split; [congruence|].
  unfold binds in Hbind. rewrite mogrify_normalized_bar in Hbind.
  destruct (adaptable (b_ticker b)); [|done]. by injection Hbind as <-.
Qed.

(** X13. From the payload to the table.  When [transform_technical] returns,
    the indicator table of the current schema holds the rows it had and
    then, for every record of the payload in order, the row that the
    server makes of the record's observation: the symbol of the payload,
    the parsed datetime, the second key of the record and the value read
    under the [indicator] argument, in the order of the columns. *)
Theorem transform_technical_stores_rows p ind sym records w p' w' :
  meta_symbol p = Ok sym ->
  subscript p "values" = Ok (VList records) ->
  transform_technical p ind w = (Ok p', w') ->
  exists stored,
    rows_of (current (env w)) "technical_data" (server w')
    = rows_of (current (env w)) "technical_data" (server w) ++ stored /\
    Forall2 (fun v row =>
               exists d i,
                 v = VDict d /\ decode_indicator sym ind d = Some i /\
                 stores (env w)
                   (columns_for (current (env w)) "technical_data"
                      technical_columns (server w))
                   (indicator_cells i) row)
      records stored.
Proof.
  intros Hm Hv Hrun.
  apply transform_technical_returns in Hrun
    as (rows & w2 & Hloop & He & Hs & Hload).
  unfold transform_technical_loop in Hloop. rewrite Hv in Hloop.
  simpl in Hloop. apply collect_ok in Hloop.
  rewrite load_technical_eq in Hload. apply load_appends in Hload.
  destruct Hload as (stored & Hst & Hall' & _).
  rewrite He, Hs in *. exists stored. split; [done|].
  eapply Forall2_trans; [|exact Hloop|exact Hall'].
  intros v row st Hrow (cells & Hbind & Hc). simpl in Hrow.
  apply technical_row_ok in Hrow as (sym0 & d & i & -> & Hm0 & Hi & ->).
  exists d, i. split; [done|]. split; [congruence|].
  unfold binds in Hbind. rewrite mogrify_indicator_dict in Hbind.
  destruct (adaptable (i_ticker i)); [|done]. by injection Hbind as <-.
Qed.

End EndToEnd.

Lemma transform_hourly_stores_bars_witness :
  exists stored,
    rows_of (current (env sample_world)) "hourly_data"
      (server (snd (transform_hourly spy sample_world)))
    = rows_of (current (env sample_world)) "hourly_data"
        (server sample_world) ++ stored /\
    Forall2 (fun v row =>
               exists d b,
                 v = VDict d /\ decode_bar (VStr "SPY") d = Some b /\
                 stores (env sample_world)
                   (columns_for (current (env sample_world)) "hourly_data"
                      hourly_columns (server sample_world))
                   (bar_cells b) row)
      spy_records stored.
Proof.
  apply (transform_hourly_stores_bars spy (VStr "SPY") spy_records
           sample_world (fst (transform_hourly_loop spy))
           (snd (transform_hourly spy sample_world)));
    vm_compute; reflexivity.
Defined.

Lemma transform_technical_stores_rows_witness :
  exists stored,
    rows_of (current (env sample_world)) "technical_data"
      (server (snd (transform_technical spy_rsi "rsi" sample_world)))
    = rows_of (current (env sample_world)) "technical_data"
        (server sample_world) ++ stored /\
    Forall2 (fun v row =>
               exists d i,
                 v = VDict d /\
                 decode_indicator (VStr "SPY") "rsi" d = Some i /\
                 stores (env sample_world)
                   (columns_for (current (env sample_world))
                      "technical_data" technical_columns
                      (server sample_world))
                   (indicator_cells i) row)
      spy_rsi_records stored.
Proof.
  apply (transform_technical_stores_rows spy_rsi "rsi" (VStr "SPY")
           spy_rsi_records sample_world spy_rsi
           (snd (transform_technical spy_rsi "rsi" sample_world)));
    vm_compute; reflexivity.
Defined.

Section Connections.

Lemma opens_none {A} (m : M A) :
  (forall w, conns (snd (m w)) = conns w) -> opens m 0.
Proof.
  intros H w. rewrite H. destruct (fst (m w)); simpl.
  - by rewrite app_nil_r.
  - exists 0%nat, []. simpl. rewrite app_nil_r.
    repeat split; try done; lia.
Qed.

Lemma opens_ret {A} (a : A) : opens (ret a) 0.
Proof. by apply opens_none. Qed.

Lemma opens_raise {A} e : opens (@raise A e) 0.
Proof. by apply opens_none. Qed.

Lemma opens_lift {A} (r : res A) : opens (lift r) 0.
Proof. by apply opens_none. Qed.

Lemma opens_log ev : opens (log ev) 0.
Proof. by apply opens_none. Qed.

Lemma opens_perf_counter : opens perf_counter 0.
Proof. by apply opens_none. Qed.

Lemma opens_extract url : opens (extract url) 0.
Proof.
  apply opens_none. intros w. rewrite extract_run.
  by destruct (peer _ _ _) as [[? [?|]]|].
Qed.

Lemma opens_bind {A B} (m : M A) (k : A -> M B) n1 n2 :
  opens m n1 -> (forall a, opens (k a) n2) -> opens (mbind m k) (n1 + n2).
Proof.
  intros Hm Hk w. unfold mbind. specialize (Hm w).
  destruct (m w) as [[a|e] w1]; simpl in *.
  - specialize (Hk a w1). rewrite Hm in Hk.
    destruct (fst (k a w1)).
    + by rewrite Hk, replicate_add, app_assoc.
    + destruct Hk as (j & rest & Hle & -> & Hlen & Hall).
      exists (n1 + j)%nat, rest. repeat split; try done; [lia|].
      by rewrite replicate_add, <-!app_assoc.
  - destruct Hm as (j & rest & Hle & -> & Hlen & Hall).
    exists j, rest. repeat split; try done. lia.
Qed.

Lemma opens_for_each {A} (l : list A) (body : A -> M unit) n :
  (forall x, opens (body x) n) -> opens (for_each l body) (length l * n).
Proof.
  intros Hbody. induction l as [|x l IH]; simpl.
  - apply opens_ret.
  - apply opens_bind; auto.
Qed.

Lemma opens_load table cols pk params data :
  opens (load table cols pk params data) 1.
Proof.
  intros w.
  pose proof (load_outcome table cols pk params data w) as H.
  cbv zeta in H.
  destruct (accepting (env w) _).
  - destruct (insert_batch _ _ _ _ _) as [db|e].
    + by rewrite H.
    + destruct H as (view & fl & rs & ->). simpl.
      exists 0%nat, [mkConnection view fl false]. simpl.
      repeat split; try done. by repeat constructor.
  - rewrite H. simpl. exists 0%nat, []. simpl. rewrite app_nil_r.
    repeat split; try done; lia.
Qed.

Lemma opens_transform_hourly p : opens (transform_hourly p) 1.
Proof.
  unfold transform_hourly.
  apply (opens_bind _ _ 0 1); [apply opens_perf_counter|]. intros t0.
  destruct (transform_hourly_loop p) as [p' [e|]].
  { intros w. simpl. exists 0%nat, []. simpl. rewrite app_nil_r.
    repeat split; try done; lia. }
  apply (opens_bind _ _ 0 1); [apply opens_perf_counter|]. intros t1.
  apply (opens_bind _ _ 0 1); [apply opens_log|]. intros _.
  apply (opens_bind _ _ 0 1); [apply opens_lift|]. intros values.
  apply (opens_bind _ _ 1 0);
    [rewrite load_hourly_eq; apply opens_load|]. intros _.
  apply opens_ret.
Qed.

Lemma opens_transform_technical p ind : opens (transform_technical p ind) 1.
Proof.
  unfold transform_technical.
  apply (opens_bind _ _ 0 1); [apply opens_perf_counter|]. intros t0.
  apply (opens_bind _ _ 0 1); [apply opens_lift|]. intros rows.
  apply (opens_bind _ _ 0 1); [apply opens_perf_counter|]. intros t1.
  apply (opens_bind _ _ 0 1); [apply opens_log|]. intros _.
  apply (opens_bind _ _ 1 0);
    [rewrite load_technical_eq; apply opens_load|]. intros _.
  apply opens_ret.
Qed.

(** X14. No connection is left behind by a run that returns: the script
    has then opened one connection for each of its 40 stores (8 of bars,
    32 of indicators) and closed every one.  A run that raises has closed
    the connections of the stores before the failure; only the
    connection of the failing loader, if it had been opened, is still
    open.  Connections that existed before the run are not touched. *)
Theorem script_closes_its_connections : opens script 40.
Proof.
  change 40%nat
    with (0 + (length tickers * 1
               + (0 + length tickers * (length technical_indicators * 1))))%nat.
  unfold script.
  apply opens_bind; [by apply opens_none|]. intros date.
  apply opens_bind.
  { apply opens_for_each. intros ticker.
    apply (opens_bind _ _ 0 1); [apply opens_extract|]. intros data.
    apply (opens_bind _ _ 1 0); [apply opens_transform_hourly|]. intros _.
    apply opens_ret. }
  intros _.
  apply opens_bind; [apply opens_log|]. intros _.
  apply opens_for_each. intros ticker.
  apply opens_for_each. intros technical_indicator.
  apply (opens_bind _ _ 0 1); [apply opens_extract|]. intros data.
  apply (opens_bind _ _ 1 0); [apply opens_transform_technical|]. intros _.
  apply opens_log.
Qed.

End Connections.

Section AppendOnly.

Lemma keeps_rows_same {A} (m : M A) :
  (forall w, server (snd (m w)) = server w) -> keeps_rows m.
Proof. intros H w schema name. by rewrite H. Qed.

Lemma keeps_rows_bind {A B} (m : M A) (k : A -> M B) :
  keeps_rows m -> (forall a, keeps_rows (k a)) -> keeps_rows (mbind m k).
Proof.
  intros Hm Hk w schema name. unfold mbind. specialize (Hm w schema name).
  destruct (m w) as [[a|e] w1]; simpl in *; [|done].
  etrans; [exact Hm|]. apply Hk.
Qed.

Lemma keeps_rows_for_each {A} (l : list A) (body : A -> M unit) :
  (forall x, keeps_rows (body x)) -> keeps_rows (for_each l body).
Proof.
  intros Hbody. induction l as [|x l IH]; simpl.
  - by apply keeps_rows_same.
  - apply keeps_rows_bind; auto.
Qed.

Lemma rows_of_ensured schema name cur table cols pk db :
  rows_of schema name (ensured cur table cols pk db) = rows_of schema name db.
Proof.
  unfold ensured, rows_of. destruct (Db.table_exists table db); [done|].
  rewrite find_table_app. destruct (Db.find_table schema name db); [done|].
  by destruct (Db.is_table _ _ _).
Qed.

Lemma insert_row_keeps c cur table cells db db' schema name :
  Db.insert_row c cur table cells db = Ok db' ->
  rows_of schema name db `prefix_of` rows_of schema name db'.
Proof.
  intros H.
  apply insert_row_ok in H as (t & stored & Hf & _ & _ & _ & Hf' & Ho).
  unfold rows_of.
  destruct (String.eqb_spec schema cur) as [->|Hs];
    [destruct (String.eqb_spec name table) as [->|Hn]|].
  - rewrite Hf, Hf'. simpl. by apply prefix_app_r.
  - by rewrite Ho by (by right).
  - by rewrite Ho by (by left).
Qed.

Lemma insert_rows_keeps e table rows schema name : forall db db',
  insert_rows e table rows db = Ok db' ->
  rows_of schema name db `prefix_of` rows_of schema name db'.
Proof.
  induction rows as [|cells rows IH]; intros db db'; simpl.
  - by intros [= <-].
  - destruct (Db.insert_row _ _ _ _ _) as [db1|] eqn:E1; [|done]. simpl.
    intros H. etrans; [by eapply insert_row_keeps|]. by apply IH.
Qed.

Lemma insert_batch_rows e table params data db db' :
  insert_batch e table params data db = Ok db' ->
  exists rows, insert_rows e table rows db = Ok db'.
Proof.
  unfold insert_batch. destruct (iterate data) as [items|]; [|done]. simpl.
  intros H. apply insert_pages_ok in H as (rows & _ & H). eauto.
Qed.

Lemma keeps_rows_load table cols pk params data :
  keeps_rows (load table cols pk params data).
Proof.
  intros w schema name.
  destruct (load table cols pk params data w) as [[[]|e] w'] eqn:Hload;
    simpl.
  - apply load_returns in Hload as (_ & _ & _ & Hb).
    apply insert_batch_rows in Hb as [rows Hrows].
    rewrite <-(rows_of_ensured schema name (current (env w)) table cols pk).
    by eapply insert_rows_keeps.
  - pose proof (load_contract table cols pk params data w) as H.
    cbv zeta in H. rewrite Hload in H. destruct H as (Hs & _).
    by rewrite Hs.
Qed.

Lemma keeps_rows_extract url : keeps_rows (extract url).
Proof.
  apply keeps_rows_same. intros w. rewrite extract_run.
  by destruct (peer _ _ _) as [[? [?|]]|].
Qed.

Lemma keeps_rows_transform_hourly p : keeps_rows (transform_hourly p).
Proof.
  unfold transform_hourly.
  apply keeps_rows_bind; [by apply keeps_rows_same|]. intros t0.
  destruct (transform_hourly_loop p) as [p' [e|]];
    [by apply keeps_rows_same|].
  apply keeps_rows_bind; [by apply keeps_rows_same|]. intros t1.
  apply keeps_rows_bind; [by apply keeps_rows_same|]. intros _.
  apply keeps_rows_bind; [by apply keeps_rows_same|]. intros values.
  apply keeps_rows_bind;
    [rewrite load_hourly_eq; apply keeps_rows_load|]. intros _.
  by apply keeps_rows_same.
Qed.

Lemma keeps_rows_transform_technical p ind :
  keeps_rows (transform_technical p ind).
Proof.
  unfold transform_technical.
  apply keeps_rows_bind; [by apply keeps_rows_same|]. intros t0.
  apply keeps_rows_bind; [by apply keeps_rows_same|]. intros rows.
  apply keeps_rows_bind; [by apply keeps_rows_same|]. intros t1.
  apply keeps_rows_bind; [by apply keeps_rows_same|]. intros _.
  apply keeps_rows_bind;
    [rewrite load_technical_eq; apply keeps_rows_load|]. intros _.
  by apply keeps_rows_same.
Qed.

(** X15. The pipeline only appends.  Whatever a run of the script does,
    and whether it returns or raises, every table of the database still
    begins with the rows that it had before the run, in the same order:
    no stored row is removed, changed or moved.  The same holds for each
    call of [extract], [transform_hourly], [transform_technical] and the
    loaders. *)
Theorem script_only_appends :
  keeps_rows script /\
  (forall url, keeps_rows (extract url)) /\
  (forall p, keeps_rows (transform_hourly p)) /\
  (forall p ind, keeps_rows (transform_technical p ind)) /\
  (forall data, keeps_rows (load_hourly data)) /\
  (forall data, keeps_rows (load_technical data)).
Proof.
  split; [|split; [|split; [|split; [|split]]]].
  - unfold script.
    apply keeps_rows_bind; [by apply keeps_rows_same|]. intros date.
    apply keeps_rows_bind.
    { apply keeps_rows_for_each. intros ticker.
      apply keeps_rows_bind; [apply keeps_rows_extract|]. intros data.
      apply keeps_rows_bind; [apply keeps_rows_transform_hourly|].
      intros _. by apply keeps_rows_same. }
    intros _.
    apply keeps_rows_bind; [by apply keeps_rows_same|]. intros _.
    apply keeps_rows_for_each. intros ticker.
    apply keeps_rows_for_each. intros technical_indicator.
    apply keeps_rows_bind; [apply keeps_rows_extract|]. intros data.
    apply keeps_rows_bind; [apply keeps_rows_transform_technical|].
    intros _. by apply keeps_rows_same.
  - apply keeps_rows_extract.
  - apply keeps_rows_transform_hourly.
  - apply keeps_rows_transform_technical.
  - intros data. rewrite load_hourly_eq. apply keeps_rows_load.
  - intros data. rewrite load_technical_eq. apply keeps_rows_load.
Qed.

End AppendOnly.
